(** * mindmesh backend: the three CLIP endpoints of [backend/main.py]

    The service wraps a pretrained CLIP model.  Everything the repository
    itself contributes is request shaping: filtering blank inputs, looping
    over texts and image URLs, catching (or not catching) failures, taking an
    argmax or a threshold, and building the response dictionaries.  This
    development embeds exactly that glue and leaves the collaborators
    abstract:

    - the CLIP text tower, the image fetcher and the CLIP image tower are
      functions that either return a value or raise;
    - tensor rows are an abstract type [Emb]; L2 normalisation and cosine
      similarity are abstract total functions on it;
    - similarity scores are rationals (the exact-arithmetic reading of the
      floats of the program), so [1 - 0.3] is [7/10];
    - a Python [str] is a [string] whose characters are code points below
      256, with Python's notion of whitespace on that range.

    Within one request a collaborator is a function of its argument: a URL
    fetched twice yields the same image, a text embedded twice the same rows.
    Handlers run in a small monad that carries the raised exception, if any,
    and the log of calls made to the collaborators. *)

From Stdlib Require Import QArith Lia Ascii String.
From stdpp Require Import base list strings pretty.

Local Open Scope string_scope.
Local Open Scope list_scope.
Local Open Scope nat_scope.

(** ** Python strings *)

Module Py.

(** [str.isspace] on one character, for code points below 256:
    TAB..CR, FS..US, SPACE, NEL and NBSP. *)
Definition isspace (c : ascii) : bool :=
  let n := nat_of_ascii c in
  ((9 <=? n)%nat && (n <=? 13)%nat) || ((28 <=? n)%nat && (n <=? 32)%nat)
  || (n =? 133)%nat || (n =? 160)%nat.

(** [str.lstrip()], [str.rstrip()] and [str.strip()] without argument. *)
Fixpoint lstrip (s : string) : string :=
  match s with
  | EmptyString => EmptyString
  | String c s' => if isspace c then lstrip s' else s
  end.

Fixpoint rstrip (s : string) : string :=
  match s with
  | EmptyString => EmptyString
  | String c s' =>
      match rstrip s' with
      | EmptyString => if isspace c then EmptyString else String c EmptyString
      | r => String c r
      end
  end.

Definition strip (s : string) : string := rstrip (lstrip s).

(** Truth value of a [str] and of a [list]. *)
Definition bool_of_str (s : string) : bool :=
  match s with EmptyString => false | String _ _ => true end.

Definition bool_of_list {A} (l : list A) : bool :=
  match l with [] => false | _ :: _ => true end.

(** [enumerate(l)] *)
Definition enumerate {A} (l : list A) : list (nat * A) :=
  imap (λ i x, (i, x)) l.

(** The condition [s.strip()] of the source. *)
Definition nonblank (s : string) : bool := bool_of_str (strip s).

(** A string has non-whitespace content. *)
Definition has_content (s : string) : Prop :=
  ∃ c, c ∈ list_ascii_of_string s ∧ isspace c = false.

End Py.

(** ** Exceptions, call log and the handler monad *)

Inductive exn : Type :=
  | Exception (msg : string)
  | IndexError (msg : string)
  | HTTPException (status_code : nat) (detail : string).

(** [str(e)]; for an [HTTPException] it is the status code in decimal, a
    colon and the detail. *)
Definition str_of_exn (e : exn) : string :=
  match e with
  | Exception msg => msg
  | IndexError msg => msg
  | HTTPException code detail =>
      String.append (pretty code) (String.append ": " detail)
  end.

Inductive result (A : Type) : Type :=
  | Ok (a : A)
  | Raise (e : exn).
Arguments Ok {A} a.
Arguments Raise {A} e.

(** One entry per call to a collaborator. *)
Inductive event : Type :=
  | TextFeatures (texts : list string)
  | Fetch (url : string)
  | ImageFeatures.

Definition io (A : Type) : Type := (result A * list event)%type.

Definition io_ret {A} (a : A) : io A := (Ok a, []).

Definition io_bind {A B} (f : A → io B) (m : io A) : io B :=
  match m with
  | (Ok a, log) => let '(r, log') := f a in (r, log ++ log')
  | (Raise e, log) => (Raise e, log)
  end.

#[export] Instance io_mret : MRet io := @io_ret.
#[export] Instance io_mbind : MBind io := @io_bind.

Definition raise {A} (e : exn) : io A := (Raise e, []).

(** [try: body  except ... as e: handler e] *)
Definition try_except {A} (body : io A) (handler : exn → io A) : io A :=
  match body with
  | (Ok a, log) => (Ok a, log)
  | (Raise e, log) => let '(r, log') := handler e in (r, log ++ log')
  end.

(** [for x in l: s = body s x], the loop state threaded explicitly. *)
Fixpoint for_each {A S} (body : S → A → io S) (l : list A) (s : S) : io S :=
  match l with
  | [] => mret s
  | x :: l' => s' ← body s x; for_each body l' s'
  end.

(** [l[i]] for a non-negative index. *)
Definition index {A} (l : list A) (i : nat) : io A :=
  match l !! i with
  | Some x => mret x
  | None => raise (IndexError "list index out of range")
  end.

(** A computation that calls no collaborator. *)
Definition silent {A} (m : io A) : Prop := m.2 = [].

(** ** Scores *)

(** [x > y] on scores. *)
Definition Qgtb (x y : Q) : bool := negb (Qle_bool x y).

(** [torch.argmax] on a one-dimensional tensor: the index of the first
    maximal value; it raises on an empty tensor. *)
Fixpoint argmax_from (best : nat) (best_val : Q) (i : nat) (l : list Q) : nat :=
  match l with
  | [] => best
  | x :: l' =>
      if Qgtb x best_val then argmax_from i x (S i) l'
      else argmax_from best best_val (S i) l'
  end.

Definition argmax (l : list Q) : io nat :=
  match l with
  | [] => raise (IndexError "argmax(): Expected reduction dim to be specified for input.numel() == 0")
  | x :: l' => mret (argmax_from 0 x 1 l')
  end.

(** [k] is the index of the first maximal value of [l]. *)
Definition first_max (l : list Q) (k : nat) : Prop :=
  ∃ v, l !! k = Some v
       ∧ (∀ j q, l !! j = Some q → (q <= v)%Q)
       ∧ (∀ j q, (j < k)%nat → l !! j = Some q → (q < v)%Q).

(** ** Response values *)

Inductive value : Type :=
  | VStr (s : string)
  | VNum (q : Q)
  | VStrs (l : list string).

(** A Python dict literal with string keys, in insertion order. *)
Definition record : Type := list (string * value).

Definition keys (r : record) : list string := map fst r.

Fixpoint get (k : string) (r : record) : option value :=
  match r with
  | [] => None
  | (k', v) :: r' => if String.eqb k k' then Some v else get k r'
  end.

(** Two outcomes of the same kind: both return, with related values, or
    both raise, whatever the two exceptions are. *)
Definition outcome_rel {A B} (R : A → B → Prop)
    (r : result A) (r' : result B) : Prop :=
  match r, r' with
  | Ok a, Ok b => R a b
  | Raise _, Raise _ => True
  | _, _ => False
  end.

(** Two records with the same keys in the same order and the same values,
    the text of an error message apart. *)
Definition same_record (r r' : record) : Prop :=
  keys r = keys r' ∧ ∀ k, k ≠ "error" → get k r = get k r'.

(** ** The service *)

Section Service.

(** A tensor row, and a decoded 224x224 RGB image. *)
Context {Emb Img : Type}.

(** [clip_processor(text=..., padding=True, truncation=True)] followed by
    [clip_model.get_text_features]: the rows of the result, one per text. *)
Variable get_text_features : list string → result (list Emb).

(** [Image.open(requests.get(url, stream=True).raw).convert("RGB").resize((224, 224))] *)
Variable load_image : string → result Img.

(** [clip_processor(images=image)] followed by
    [clip_model.get_image_features]: the single row of the result. *)
Variable get_image_features : Img → result Emb.

(** [x / x.norm(p=2, dim=-1, keepdim=True)] on one row. *)
Variable normalize : Emb → Emb.

(** [torch.nn.functional.cosine_similarity] of two rows. *)
Variable cosine_similarity : Emb → Emb → Q.

Definition clip_text_features (texts : list string) : io (list Emb) :=
  (get_text_features texts, [TextFeatures texts]).

Definition fetch_image (url : string) : io Img :=
  (load_image url, [Fetch url]).

Definition clip_image_features (image : Img) : io Emb :=
  (get_image_features image, [ImageFeatures]).

(** [cosine_similarity(x, y)] along [dim=1] for two matrices given by their
    rows, with the broadcasting of the first dimension. *)
Definition cosine_similarity_rows (x y : list Emb) : io (list Q) :=
  match x, y with
  | [a], _ => mret (map (cosine_similarity a) y)
  | _, [b] => mret (map (λ a, cosine_similarity a b) x)
  | _, _ =>
      if (length x =? length y)%nat then mret (zip_with cosine_similarity x y)
      else raise (Exception "The size of tensor a must match the size of tensor b")
  end.

(** *** [POST /group-threshold] *)

Definition threshold : Q := 3 # 10.

(** The body of the loop over [image_urls]; the state is the pair
    [(image_embeddings, valid_image_urls)]. *)
Definition embed_image (st : list Emb * list string) (url : string)
  : io (list Emb * list string) :=
  let '(image_embeddings, valid_image_urls) := st in
  if Py.nonblank url then
    try_except
      (image ← fetch_image url;
       features ← clip_image_features image;
       let normed := normalize features in
       mret (image_embeddings ++ [normed], valid_image_urls ++ [url]))
      (λ _, mret (image_embeddings, valid_image_urls))
  else mret (image_embeddings, valid_image_urls).

Definition embed_images (image_urls : list string)
  : io (list Emb * list string) :=
  for_each embed_image image_urls ([], []).

(** The body of the inner loop over [enumerate(image_embeddings)]; the state
    is [group["matches"]]. *)
Definition match_image (t_vec : Emb) (valid_image_urls : list string)
    (matches : list string) (ji : nat * Emb) : io (list string) :=
  let '(j, i_vec) := ji in
  let similarity := cosine_similarity t_vec i_vec in
  if Qgtb similarity (1 - threshold) then
    url ← index valid_image_urls j;
    mret (matches ++ [url])
  else mret matches.

(** The body of the outer loop over [enumerate(text_embeddings)]; the state
    is [grouped]. *)
Definition group_text (valid_texts : list string)
    (image_embeddings : list Emb) (valid_image_urls : list string)
    (grouped : list record) (it : nat * Emb) : io (list record) :=
  let '(i, t_vec) := it in
  text ← index valid_texts i;
  matches ← for_each (match_image t_vec valid_image_urls)
              (Py.enumerate image_embeddings) [];
  mret (grouped ++ [[("text", VStr text); ("matches", VStrs matches)]]).

Definition group_by_similarity (texts image_urls : list string)
  : io (list record) :=
  if negb (Py.bool_of_list texts) || negb (existsb Py.nonblank texts) then
    mret []
  else
    let valid_texts := List.filter Py.nonblank texts in
    text_features ← clip_text_features valid_texts;
    let text_embeddings := map normalize text_features in
    '(image_embeddings, valid_image_urls) ← embed_images image_urls;
    for_each (group_text valid_texts image_embeddings valid_image_urls)
      (Py.enumerate text_embeddings) [].

(** Specification side: the normalised embedding of the image behind
    [url], when both fetching and embedding succeed. *)
Definition image_embedding (url : string) : option Emb :=
  match load_image url with
  | Ok image =>
      match get_image_features image with
      | Ok features => Some (normalize features)
      | Raise _ => None
      end
  | Raise _ => None
  end.

(** Specification side: [url] is attempted and embeds successfully. *)
Definition embeds (url : string) : bool :=
  Py.nonblank url && bool_decide (is_Some (image_embedding url)).

(** Specification side: the URLs, in order, at the positions whose
    embedding is above the cutoff for [t_vec]. *)
Definition matching (t_vec : Emb) (image_embeddings : list Emb)
    (valid_image_urls : list string) : list string :=
  map snd
    (List.filter
       (λ iu : Emb * string,
          Qgtb (cosine_similarity t_vec iu.1) (1 - threshold))
       (zip image_embeddings valid_image_urls)).

(** *** [POST /classify-art-style] *)

Definition art_styles : list string :=
  ["impressionism"; "abstract"; "realistic"; "minimalist";
   "surreal"; "vintage"; "modern"; "classical"; "pop art";
   "cubism"; "expressionism"; "renaissance"; "baroque"; "contemporary"].

(** The dictionary built in the inner [try] block for one image. *)
Definition classify_style (image_url : string) : io record :=
  image ← fetch_image image_url;
  image_features ← clip_image_features image;
  let image_norm := [normalize image_features] in
  style_features ← clip_text_features art_styles;
  let style_norm := map normalize style_features in
  similarities ← cosine_similarity_rows image_norm style_norm;
  top_style_idx ← argmax similarities;
  style ← index art_styles top_style_idx;
  confidence ← index similarities top_style_idx;
  mret [("image", VStr image_url);
        ("style", VStr style);
        ("confidence", VNum confidence)].

(** Specification side: [r] is the record of a successful classification
    of [image_url]; the label is the one at the first maximal similarity. *)
Definition style_success (image_url : string) (r : record) : Prop :=
  ∃ image features rows k style confidence,
    load_image image_url = Ok image
    ∧ get_image_features image = Ok features
    ∧ get_text_features art_styles = Ok rows
    ∧ first_max (map (cosine_similarity (normalize features))
                   (map normalize rows)) k
    ∧ art_styles !! k = Some style
    ∧ map (cosine_similarity (normalize features)) (map normalize rows) !! k
      = Some confidence
    ∧ r = [("image", VStr image_url);
           ("style", VStr style);
           ("confidence", VNum confidence)].

(** The dictionary built in the [except] block. *)
Definition style_error (image_url : string) (img_error : exn) : record :=
  [("image", VStr image_url);
   ("style", VStr "unknown");
   ("confidence", VNum 0);
   ("error", VStr (String.append "Failed to process image: "
                     (str_of_exn img_error)))].

(** The body of the loop over [request.images]; the state is [results]. *)
Definition art_style_step (results : list record) (image_url : string)
  : io (list record) :=
  if negb (Py.nonblank image_url) then mret results
  else
    try_except
      (r ← classify_style image_url; mret (results ++ [r]))
      (λ img_error, mret (results ++ [style_error image_url img_error])).

Definition classify_art_style (images : list string)
  : io (list (string * list record)) :=
  try_except
    (results ← for_each art_style_step images [];
     mret [("classifications", results)])
    (λ e, raise (HTTPException 500
                   (String.append "Art style classification failed: "
                      (str_of_exn e)))).

(** *** [POST /classify-mood-theme] *)

Definition mood_categories : list string :=
  ["happy"; "sad"; "energetic"; "calm"; "mysterious"; "romantic";
   "aggressive"; "peaceful"].

Definition theme_categories : list string :=
  ["nature"; "urban"; "technology"; "art"; "food"; "travel"; "fashion";
   "sports"; "business"; "education"].

(** The dictionary built for one item once it is embedded; the text block
    and the image block of the source are the same from this point on, up to
    the value of [type]. *)
Definition mood_theme_of (type content : string) (item_norm : list Emb)
  : io record :=
  mood_features ← clip_text_features mood_categories;
  let mood_norm := map normalize mood_features in
  theme_features ← clip_text_features theme_categories;
  let theme_norm := map normalize theme_features in
  mood_similarities ← cosine_similarity_rows item_norm mood_norm;
  theme_similarities ← cosine_similarity_rows item_norm theme_norm;
  top_mood_idx ← argmax mood_similarities;
  top_theme_idx ← argmax theme_similarities;
  mood ← index mood_categories top_mood_idx;
  theme ← index theme_categories top_theme_idx;
  mood_confidence ← index mood_similarities top_mood_idx;
  theme_confidence ← index theme_similarities top_theme_idx;
  mret [("type", VStr type);
        ("content", VStr content);
        ("mood", VStr mood);
        ("theme", VStr theme);
        ("mood_confidence", VNum mood_confidence);
        ("theme_confidence", VNum theme_confidence)].

(** Specification side: [r] is the record of a classified item; the mood
    is the label at the first maximal mood similarity and the theme the label
    at the first maximal theme similarity, each found on its own scores. *)
Definition mood_theme_success (type content : string) (item_norm : list Emb)
    (r : record) : Prop :=
  ∃ mood_rows theme_rows mood_similarities theme_similarities
    top_mood_idx top_theme_idx mood theme mood_confidence theme_confidence,
    get_text_features mood_categories = Ok mood_rows
    ∧ get_text_features theme_categories = Ok theme_rows
    ∧ (cosine_similarity_rows item_norm (map normalize mood_rows)).1
      = Ok mood_similarities
    ∧ (cosine_similarity_rows item_norm (map normalize theme_rows)).1
      = Ok theme_similarities
    ∧ first_max mood_similarities top_mood_idx
    ∧ first_max theme_similarities top_theme_idx
    ∧ mood_categories !! top_mood_idx = Some mood
    ∧ theme_categories !! top_theme_idx = Some theme
    ∧ mood_similarities !! top_mood_idx = Some mood_confidence
    ∧ theme_similarities !! top_theme_idx = Some theme_confidence
    ∧ r = [("type", VStr type);
           ("content", VStr content);
           ("mood", VStr mood);
           ("theme", VStr theme);
           ("mood_confidence", VNum mood_confidence);
           ("theme_confidence", VNum theme_confidence)].

(** The body of the loop over [texts]; the state is [results]. *)
Definition mood_theme_text (results : list record) (text : string)
  : io (list record) :=
  if Py.nonblank text then
    text_features ← clip_text_features [text];
    let text_norm := map normalize text_features in
    r ← mood_theme_of "text" text text_norm;
    mret (results ++ [r])
  else mret results.

(** The dictionary built in the [except] block. *)
Definition mood_theme_error (url : string) (e : exn) : record :=
  [("type", VStr "image");
   ("content", VStr url);
   ("error", VStr (String.append "Failed to process image: " (str_of_exn e)))].

(** The dictionary built in the [try] block for one image. *)
Definition mood_theme_image_try (url : string) : io record :=
  image ← fetch_image url;
  image_features ← clip_image_features image;
  let image_norm := [normalize image_features] in
  mood_theme_of "image" url image_norm.

(** The body of the loop over [image_urls]; the state is [results]. *)
Definition mood_theme_image (results : list record) (url : string)
  : io (list record) :=
  if Py.nonblank url then
    try_except
      (r ← mood_theme_image_try url; mret (results ++ [r]))
      (λ e, mret (results ++ [mood_theme_error url e]))
  else mret results.

(** Specification side: [r] is the record of the text [text]. *)
Definition text_record (text : string) (r : record) : Prop :=
  ∃ rows,
    get_text_features [text] = Ok rows
    ∧ mood_theme_success "text" text (map normalize rows) r.

(** Specification side: [r] is the record of the image behind [url], a
    classification or the error record of the exception raised. *)
Definition image_record (url : string) (r : record) : Prop :=
  (∃ image features,
     load_image url = Ok image
     ∧ get_image_features image = Ok features
     ∧ mood_theme_success "image" url [normalize features] r)
  ∨ (∃ e, (mood_theme_image_try url).1 = Raise e
          ∧ r = mood_theme_error url e).

Definition classify_mood_theme (texts image_urls : list string)
  : io (list record) :=
  results ← for_each mood_theme_text texts [];
  for_each mood_theme_image image_urls results.

(** Specification side: the pairs (embedding, URL) of the non-blank URLs
    that embed, in input order. *)
Definition embedded (image_urls : list string) : list (Emb * string) :=
  omap (λ url, if Py.nonblank url
               then (λ e, (e, url)) <$> image_embedding url
               else None)
    image_urls.

(** Specification side: the calls [group_by_similarity] makes for one URL. *)
Definition image_calls (url : string) : list event :=
  if Py.nonblank url then
    Fetch url ::
    match load_image url with
    | Ok _ => [ImageFeatures]
    | Raise _ => []
    end
  else [].

(** Specification side: the calls [classify_art_style] makes for one URL. *)
Definition art_calls (image_url : string) : list event :=
  if Py.nonblank image_url then
    Fetch image_url ::
    match load_image image_url with
    | Ok image =>
        ImageFeatures ::
        match get_image_features image with
        | Ok _ => [TextFeatures art_styles]
        | Raise _ => []
        end
    | Raise _ => []
    end
  else [].

End Service.

(** A small instance of the collaborators, used to run the handlers: an
    embedding is the length of the text or of the URL, an image is its URL,
    only [http] URLs can be fetched, and one of them cannot be decoded. *)
Module Toy.

Definition get_text_features (texts : list string) : result (list Z) :=
  if existsb (String.eqb "boom") texts then Raise (Exception "tokenizer")
  else Ok (map (λ s, Z.of_nat (String.length s)) texts).

Definition load_image (url : string) : result string :=
  if String.prefix "http" url then Ok url
  else Raise (Exception "Invalid URL").

Definition get_image_features (image : string) : result Z :=
  if String.eqb image "http://bad" then Raise (Exception "cannot identify image file")
  else Ok (Z.of_nat (String.length image)).

Definition normalize (x : Z) : Z := x.

Definition cosine_similarity (x y : Z) : Q :=
  if (x =? y)%Z then 1 else if (Z.abs (x - y) <=? 2)%Z then 7 # 10 else 1 # 2.

(** A second run against the same remote content: what succeeds returns
    the same value, what fails raises again, with another message (the
    message of a decoding error carries the address of a buffer). *)
Definition get_text_features_rerun (texts : list string) : result (list Z) :=
  if existsb (String.eqb "boom") texts
  then Raise (Exception "tokenizer (second run)")
  else Ok (map (λ s, Z.of_nat (String.length s)) texts).

Definition load_image_rerun (url : string) : result string :=
  if String.prefix "http" url then Ok url
  else Raise (Exception "Invalid URL (second run)").

Definition get_image_features_rerun (image : string) : result Z :=
  if String.eqb image "http://bad"
  then Raise (Exception "cannot identify image file <_io.BytesIO object at 0x7f9c>")
  else Ok (Z.of_nat (String.length image)).

(** A world in which the text tower is down. *)
Definition get_text_features_down (texts : list string) : result (list Z) :=
  Raise (Exception "model unavailable").

Definition group := group_by_similarity get_text_features load_image
  get_image_features normalize cosine_similarity.

Definition embed := embed_images load_image get_image_features normalize.

Definition art := classify_art_style get_text_features load_image
  get_image_features normalize cosine_similarity.

Definition mood := classify_mood_theme get_text_features load_image
  get_image_features normalize cosine_similarity.

Definition texts : list string := ["a red apple"; "  "; "cat"].

Definition image_urls : list string :=
  ["http://a.io"; ""; "ftp"; "http://bad"; "http"].

Definition mood_results : list record :=
  [[("type", VStr "text"); ("content", VStr "a red apple");
    ("mood", VStr "energetic"); ("theme", VStr "technology");
    ("mood_confidence", VNum (7 # 10)); ("theme_confidence", VNum (7 # 10))];
   [("type", VStr "text"); ("content", VStr "cat");
    ("mood", VStr "sad"); ("theme", VStr "art");
    ("mood_confidence", VNum 1); ("theme_confidence", VNum 1)];
   [("type", VStr "image"); ("content", VStr "http://a.io");
    ("mood", VStr "energetic"); ("theme", VStr "technology");
    ("mood_confidence", VNum (7 # 10)); ("theme_confidence", VNum (7 # 10))];
   [("type", VStr "image"); ("content", VStr "ftp");
    ("error", VStr "Failed to process image: Invalid URL")];
   [("type", VStr "image"); ("content", VStr "http://bad");
    ("error", VStr "Failed to process image: cannot identify image file")];
   [("type", VStr "image"); ("content", VStr "http");
    ("mood", VStr "calm"); ("theme", VStr "food");
    ("mood_confidence", VNum 1); ("theme_confidence", VNum 1)]].

End Toy.

(** ** Runs of the model *)

Example strip_inner_space : Py.strip "  a red apple  " = "a red apple".
Proof. reflexivity. Qed.

Example blank_is_falsy : Py.nonblank "  " = false ∧ Py.nonblank "" = false.
Proof. split; reflexivity. Qed.

Example argmax_first_of_ties :
  (argmax [1 # 2; 7 # 10; 3 # 10; 7 # 10]).1 = Ok 1.
Proof. reflexivity. Qed.

Example argmax_empty_raises : ∃ e, (argmax []).1 = Raise e.
Proof. by eexists. Qed.

(** A score of exactly [7/10] is not a match, and neither is a score of
    [1/2], although it is above the threshold [3/10] itself. *)
Example group_run :
  Toy.group Toy.texts Toy.image_urls
  = (Ok [[("text", VStr "a red apple"); ("matches", VStrs ["http://a.io"])];
         [("text", VStr "cat"); ("matches", VStrs [])]],
     [TextFeatures ["a red apple"; "cat"];
      Fetch "http://a.io"; ImageFeatures;
      Fetch "ftp";
      Fetch "http://bad"; ImageFeatures;
      Fetch "http"; ImageFeatures]).
Proof. reflexivity. Qed.

Example group_run_scores :
  Toy.cosine_similarity 3 4 = 7 # 10 ∧ Toy.cosine_similarity 3 11 = 1 # 2.
Proof. split; reflexivity. Qed.

Example art_run :
  (Toy.art ["http://a.io"; ""; "ftp"; "http:"]).1
  = Ok [("classifications",
         [[("image", VStr "http://a.io"); ("style", VStr "renaissance");
           ("confidence", VNum 1)];
          [("image", VStr "ftp"); ("style", VStr "unknown");
           ("confidence", VNum 0);
           ("error", VStr "Failed to process image: Invalid URL")];
          [("image", VStr "http:"); ("style", VStr "surreal");
           ("confidence", VNum (7 # 10))]])].
Proof. reflexivity. Qed.

Example mood_run : (Toy.mood Toy.texts Toy.image_urls).1 = Ok Toy.mood_results.
Proof. reflexivity. Qed.

Example mood_run_text_failure :
  (Toy.mood ["a red apple"; "boom"; "cat"] Toy.image_urls).1
  = Raise (Exception "tokenizer").
Proof. reflexivity. Qed.

(** The second run reports the failures with other messages. *)
Example rerun_messages_differ :
  (classify_art_style Toy.get_text_features_rerun Toy.load_image_rerun
     Toy.get_image_features_rerun Toy.normalize Toy.cosine_similarity
     ["ftp"; "http://bad"]).1
  = Ok [("classifications",
         [[("image", VStr "ftp"); ("style", VStr "unknown");
           ("confidence", VNum 0);
           ("error",
            VStr "Failed to process image: Invalid URL (second run)")];
          [("image", VStr "http://bad"); ("style", VStr "unknown");
           ("confidence", VNum 0);
           ("error",
            VStr "Failed to process image: cannot identify image file <_io.BytesIO object at 0x7f9c>")]])].
Proof. reflexivity. Qed.

(** ** Facts about Python strings *)

Lemma rstrip_content (s : string) :
  Py.bool_of_str (Py.rstrip s)
  = existsb (λ c, negb (Py.isspace c)) (list_ascii_of_string s).
Proof.
  induction s as [|c s IH]; simpl; [done|].
  destruct (Py.rstrip s) eqn:E; simpl in *.
  - rewrite <- IH. by destruct (Py.isspace c).
  - rewrite <- IH. by rewrite orb_true_r.
Qed.

Lemma lstrip_content (s : string) :
  existsb (λ c, negb (Py.isspace c)) (list_ascii_of_string (Py.lstrip s))
  = existsb (λ c, negb (Py.isspace c)) (list_ascii_of_string s).
Proof.
  induction s as [|c s IH]; simpl; [done|].
  destruct (Py.isspace c) eqn:E; simpl; [done|].
  by rewrite E.
Qed.

Lemma nonblank_existsb (s : string) :
  Py.nonblank s
  = existsb (λ c, negb (Py.isspace c)) (list_ascii_of_string s).
Proof.
  unfold Py.nonblank, Py.strip. by rewrite rstrip_content, lstrip_content.
Qed.

Lemma nonblank_has_content (s : string) :
  Py.nonblank s = true ↔ Py.has_content s.
Proof.
  rewrite nonblank_existsb, existsb_exists. unfold Py.has_content.
  split; intros (c & Hc & Hs); exists c; split.
  - by apply list_elem_of_In.
  - by apply negb_true_iff.
  - by apply list_elem_of_In.
  - by apply negb_true_iff.
Qed.

Lemma existsb_nonblank_false (texts : list string) :
  (∀ t, t ∈ texts → ¬ Py.has_content t) →
  existsb Py.nonblank texts = false.
Proof.
  intros H. apply not_true_is_false. intros (t & Ht & Hn)%existsb_exists.
  apply list_elem_of_In in Ht. apply (H t Ht). by apply nonblank_has_content.
Qed.

Lemma filter_none {A} (f : A → bool) (l : list A) :
  (∀ x, In x l → f x = false) → List.filter f l = [].
Proof.
  induction l as [|x l IH]; intros H; simpl; [done|].
  rewrite (H x) by by left. apply IH. intros y Hy. apply H. by right.
Qed.

Lemma enumerate_from {A} (k : nat) (x : A) (l : list A) :
  imap (λ i y, (k + i, y)) (x :: l)
  = (k, x) :: imap (λ i y, (S k + i, y)) l.
Proof.
  simpl. f_equal; [f_equal; lia|].
  apply imap_ext. intros i y _. simpl. f_equal. lia.
Qed.

(** ** Facts about the handler monad *)

Lemma bind_Ok {A B} (m : io A) (f : A → io B) (a : A) :
  m.1 = Ok a → (m ≫= f).1 = (f a).1.
Proof.
  destruct m as [r log]. simpl. intros ->.
  unfold mbind, io_mbind, io_bind. by destruct (f a).
Qed.

Lemma bind_Raise {A B} (m : io A) (f : A → io B) (e : exn) :
  m.1 = Raise e → (m ≫= f).1 = Raise e.
Proof. destruct m as [r log]. simpl. by intros ->. Qed.

Lemma bind_Ok_inv {A B} (m : io A) (f : A → io B) (b : B) :
  (m ≫= f).1 = Ok b → ∃ a, m.1 = Ok a ∧ (f a).1 = Ok b.
Proof.
  destruct m as [[a|e] log]; [|done].
  intros H. exists a. split; [done|]. by rewrite (bind_Ok _ f a) in H.
Qed.

Lemma try_except_Ok {A} (body : io A) (h : exn → io A) (a : A) :
  body.1 = Ok a → (try_except body h).1 = Ok a.
Proof. destruct body as [r log]. simpl. by intros ->. Qed.

Lemma try_except_Raise {A} (body : io A) (h : exn → io A) (e : exn) :
  body.1 = Raise e → (try_except body h).1 = (h e).1.
Proof. destruct body as [r log]. simpl. intros ->. by destruct (h e). Qed.

Lemma index_Ok {A} (l : list A) (i : nat) (x : A) :
  l !! i = Some x → (index l i).1 = Ok x.
Proof. unfold index. by intros ->. Qed.

Lemma index_Ok_inv {A} (l : list A) (i : nat) (x : A) :
  (index l i).1 = Ok x → l !! i = Some x.
Proof. unfold index. destruct (l !! i); simpl; congruence. Qed.

Lemma for_each_cons {A S} (body : S → A → io S) (x : A) (l : list A) (s s' : S) :
  (body s x).1 = Ok s' →
  (for_each body (x :: l) s).1 = (for_each body l s').1.
Proof. intros H. simpl. by rewrite (bind_Ok _ _ _ H). Qed.

Lemma for_each_cons_Raise {A S} (body : S → A → io S) (x : A) (l : list A)
    (s : S) (e : exn) :
  (body s x).1 = Raise e → (for_each body (x :: l) s).1 = Raise e.
Proof. intros H. simpl. by rewrite (bind_Raise _ _ _ H). Qed.

Lemma for_each_ext {A S} (body body' : S → A → io S) (l : list A) (s : S) :
  (∀ x s', x ∈ l → body s' x = body' s' x) →
  for_each body l s = for_each body' l s.
Proof.
  revert s. induction l as [|x l IH]; intros s H; simpl; [done|].
  rewrite (H x s) by left.
  unfold mbind, io_mbind, io_bind.
  destruct (body' s x) as [[s'|e] log]; [|done].
  rewrite IH; [done|]. intros y s'' Hy. apply H. by right.
Qed.

Lemma for_each_app {A S} (body : S → A → io S) (l1 l2 : list A) (s s1 : S) :
  (for_each body l1 s).1 = Ok s1 →
  (for_each body (l1 ++ l2) s).1 = (for_each body l2 s1).1.
Proof.
  revert s. induction l1 as [|x l1 IH]; intros s; simpl.
  - by intros [= ->].
  - intros H. apply bind_Ok_inv in H as (s' & Hs' & H).
    rewrite (bind_Ok _ _ s' Hs'). by apply IH.
Qed.

Lemma bind_ext {A B} (m : io A) (f g : A → io B) :
  (∀ a, f a = g a) → m ≫= f = m ≫= g.
Proof.
  intros H. destruct m as [[a|e] log]; [|done].
  unfold mbind, io_mbind, io_bind. by rewrite H.
Qed.

Lemma try_except_ext {A} (body body' : io A) (h h' : exn → io A) :
  body = body' → (∀ e, h e = h' e) → try_except body h = try_except body' h'.
Proof.
  intros <- H. destruct body as [[a|e] log]; [done|]. simpl. by rewrite H.
Qed.

Lemma for_each_Forall2 {A B} (body : list B → A → io (list B))
    (keep : A → bool) (R : A → B → Prop) (l : list A) :
  (∀ s x s', x ∈ l → (body s x).1 = Ok s' →
             if keep x then ∃ r, s' = s ++ [r] ∧ R x r else s' = s) →
  ∀ s s', (for_each body l s).1 = Ok s' →
          ∃ recs, s' = s ++ recs ∧ Forall2 R (List.filter keep l) recs.
Proof.
  induction l as [|x l IH]; intros Hbody s s' Hrun.
  - injection Hrun as <-. exists []. by rewrite app_nil_r.
  - simpl in Hrun. apply bind_Ok_inv in Hrun as (s1 & Hstep & Hrun).
    apply IH in Hrun as (recs & -> & Hrecs).
    2:{ intros s0 y s0' Hy. apply Hbody. by right. }
    apply Hbody in Hstep; [|by left]. simpl.
    destruct (keep x).
    + destruct Hstep as (r & -> & Hr). exists (r :: recs).
      rewrite <- (assoc_L (++)). split; [done|]. by constructor.
    + subst s1. by exists recs.
Qed.

Lemma for_each_total {A S} (body : S → A → io S) (l : list A) :
  (∀ s x, x ∈ l → ∃ s', (body s x).1 = Ok s') →
  ∀ s, ∃ s', (for_each body l s).1 = Ok s'.
Proof.
  induction l as [|x l IH]; intros Hbody s; [by exists s|].
  destruct (Hbody s x) as [s1 Hstep]; [by left|].
  rewrite (for_each_cons _ _ _ _ _ Hstep).
  apply IH. intros s0 y Hy. apply Hbody. by right.
Qed.

Lemma for_each_raises {A S} (body : S → A → io S) (l : list A) (x : A) :
  x ∈ l → (∀ s, ∃ e, (body s x).1 = Raise e) →
  ∀ s, ∃ e, (for_each body l s).1 = Raise e.
Proof.
  intros Hx Hraise. induction l as [|y l IH]; intros s.
  - by apply elem_of_nil in Hx.
  - destruct (body s y).1 as [s1|e] eqn:Hstep.
    + rewrite (for_each_cons _ _ _ _ _ Hstep).
      apply elem_of_cons in Hx as [->|Hx]; [|by apply IH].
      destruct (Hraise s) as [e He]. congruence.
    + exists e. by apply for_each_cons_Raise.
Qed.

Lemma for_each_appends {A B} (body : list B → A → io (list B)) (l : list A) :
  (∀ x, x ∈ l → ∃ recs, ∀ s, (body s x).1 = Ok (s ++ recs)) →
  ∃ recs, ∀ s, (for_each body l s).1 = Ok (s ++ recs).
Proof.
  induction l as [|x l IH]; intros Hbody.
  - exists []. intros s. by rewrite app_nil_r.
  - destruct (Hbody x) as [r1 Hstep]; [by left|].
    destruct IH as [r2 Hrest]. { intros y Hy. apply Hbody. by right. }
    exists (r1 ++ r2). intros s.
    rewrite (for_each_cons _ _ _ _ _ (Hstep s)), Hrest.
    by rewrite (assoc_L (++)).
Qed.

(** ** Facts about scores and [argmax] *)

Lemma Qgtb_true (x y : Q) : Qgtb x y = true ↔ (y < x)%Q.
Proof.
  unfold Qgtb. rewrite negb_true_iff, <- not_true_iff_false, Qle_bool_iff.
  split; [apply Qnot_le_lt | apply Qlt_not_le].
Qed.

Lemma Qgtb_false (x y : Q) : Qgtb x y = false ↔ (x <= y)%Q.
Proof. unfold Qgtb. by rewrite negb_false_iff, Qle_bool_iff. Qed.

Lemma cutoff_value : (1 - threshold == 7 # 10)%Q.
Proof. reflexivity. Qed.

Lemma argmax_from_spec (l : list Q) :
  ∀ (pre : list Q) (best : nat) (bv : Q) (i : nat),
    i = length pre →
    pre !! best = Some bv →
    (∀ j q, pre !! j = Some q → (q <= bv)%Q) →
    (∀ j q, (j < best)%nat → pre !! j = Some q → (q < bv)%Q) →
    first_max (pre ++ l) (argmax_from best bv i l).
Proof.
  induction l as [|x l IH]; intros pre best bv i -> Hbest Hle Hlt; simpl.
  - rewrite app_nil_r. exists bv. eauto.
  - assert (Hb : (best < length pre)%nat) by by eapply lookup_lt_Some.
    rewrite (cons_middle x pre l), (assoc_L (++)).
    destruct (Qgtb x bv) eqn:E.
    + apply Qgtb_true in E.
      apply IH.
      * rewrite length_app. simpl. lia.
      * rewrite lookup_app_r by lia. by rewrite Nat.sub_diag.
      * intros j q Hj. apply lookup_app_Some in Hj as [Hj|[_ Hj]].
        -- apply Qlt_le_weak. eapply Qle_lt_trans; eauto.
        -- apply list_lookup_singleton_Some in Hj as [_ <-]. apply Qle_refl.
      * intros j q Hjl Hj. rewrite lookup_app_l in Hj by done.
        eapply Qle_lt_trans; eauto.
    + apply Qgtb_false in E.
      apply IH.
      * rewrite length_app. simpl. lia.
      * by rewrite lookup_app_l.
      * intros j q Hj. apply lookup_app_Some in Hj as [Hj|[_ Hj]]; [eauto|].
        by apply list_lookup_singleton_Some in Hj as [_ <-].
      * intros j q Hjl Hj. rewrite lookup_app_l in Hj by lia. eauto.
Qed.

Lemma argmax_Ok (l : list Q) (k : nat) :
  (argmax l).1 = Ok k → first_max l k.
Proof.
  destruct l as [|x l]; simpl; [done|]. intros [= <-].
  apply (argmax_from_spec l [x] 0%nat x 1%nat); try done.
  - intros [|j] q; simpl; [|done]. intros [= ->]. apply Qle_refl.
  - lia.
Qed.

Lemma argmax_nonempty (l : list Q) :
  l ≠ [] → ∃ k, (argmax l).1 = Ok k.
Proof. destruct l; [done|]. simpl. eauto. Qed.

Lemma first_max_lt (l : list Q) (k : nat) :
  first_max l k → (k < length l)%nat.
Proof. intros (v & Hv & _). by eapply lookup_lt_Some. Qed.

(** ** Facts about [group_by_similarity] *)

Section GroupFacts.

Context {Emb Img : Type}.
Variable get_text_features : list string → result (list Emb).
Variable load_image : string → result Img.
Variable get_image_features : Img → result Emb.
Variable normalize : Emb → Emb.
Variable cosine_similarity : Emb → Emb → Q.

Local Abbreviation embed_image' := (embed_image load_image get_image_features normalize).
Local Abbreviation embed_images' := (embed_images load_image get_image_features normalize).
Local Abbreviation image_embedding' := (image_embedding load_image get_image_features normalize).
Local Abbreviation embeds' := (embeds load_image get_image_features normalize).
Local Abbreviation matching' := (matching cosine_similarity).
Local Abbreviation match_image' := (match_image cosine_similarity).
Local Abbreviation group_text' := (group_text cosine_similarity).
Local Abbreviation group_by_similarity' :=
  (group_by_similarity get_text_features load_image get_image_features
     normalize cosine_similarity).

Lemma embed_image_step (es : list Emb) (us : list string) (url : string) :
  (embed_image' (es, us) url).1
  = Ok (if Py.nonblank url then
          match image_embedding' url with
          | Some e => (es ++ [e], us ++ [url])
          | None => (es, us)
          end
        else (es, us)).
Proof.
  unfold embed_image, image_embedding, fetch_image, clip_image_features.
  destruct (Py.nonblank url); [|done].
  destruct (load_image url) as [image|e]; [|done]. simpl.
  by destruct (get_image_features image).
Qed.

(** The loop over the URLs keeps the pairs (embedding, URL) of the images
    that embed, in input order. *)
Lemma embed_images_from (urls : list string) :
  ∀ (es : list Emb) (us : list string),
    ∃ good : list (Emb * string),
      (for_each embed_image' urls (es, us)).1 = Ok (es ++ good.*1, us ++ good.*2)
      ∧ good.*2 = List.filter embeds' urls
      ∧ (∀ e u, (e, u) ∈ good → image_embedding' u = Some e).
Proof.
  induction urls as [|url urls IH]; intros es us.
  - exists []. simpl. rewrite !app_nil_r. split_and!; [done..|].
    by intros e u ?%elem_of_nil.
  - pose proof (embed_image_step es us url) as Hstep.
    rewrite (for_each_cons _ _ _ _ _ Hstep).
    change (List.filter embeds' (url :: urls))
      with (if embeds' url then url :: List.filter embeds' urls
            else List.filter embeds' urls).
    unfold embeds at 1.
    destruct (Py.nonblank url); cbn [andb];
      [destruct (image_embedding' url) as [e|] eqn:E|].
    + destruct (IH (es ++ [e]) (us ++ [url])) as (good & Hrun & Hurls & Hgood).
      exists ((e, url) :: good). rewrite Hrun.
      rewrite bool_decide_true by eauto. simpl.
      rewrite <- !(assoc_L (++)). simpl. split_and!; [done|by f_equal|].
      intros e' u' [[= -> ->]|?]%elem_of_cons; eauto.
    + destruct (IH es us) as (good & Hrun & Hurls & Hgood).
      exists good. rewrite Hrun.
      rewrite bool_decide_false by (by intros [? ?]). done.
    + destruct (IH es us) as (good & Hrun & Hurls & Hgood).
      exists good. by rewrite Hrun.
Qed.

Lemma embed_images_spec (image_urls : list string) :
  ∃ good : list (Emb * string),
    (embed_images' image_urls).1 = Ok (good.*1, good.*2)
    ∧ good.*2 = List.filter embeds' image_urls
    ∧ (∀ e u, (e, u) ∈ good → image_embedding' u = Some e).
Proof. apply (embed_images_from image_urls [] []). Qed.

Lemma embed_images_inv (image_urls : list string)
    (image_embeddings : list Emb) (valid_image_urls : list string) :
  (embed_images' image_urls).1 = Ok (image_embeddings, valid_image_urls) →
  length image_embeddings = length valid_image_urls
  ∧ valid_image_urls = List.filter embeds' image_urls
  ∧ (∀ j e u, image_embeddings !! j = Some e → valid_image_urls !! j = Some u →
              image_embedding' u = Some e).
Proof.
  destruct (embed_images_spec image_urls) as (good & -> & Hurls & Hgood).
  intros [= <- <-]. split_and!; [by rewrite !length_fmap|done|].
  intros j e u He Hu.
  apply list_lookup_fmap_Some in He as ([e' u'] & -> & Hj).
  rewrite list_lookup_fmap, Hj in Hu. injection Hu as <-.
  apply Hgood. by eapply list_elem_of_lookup_2.
Qed.

Lemma matching_cons (t_vec e : Emb) (embs : list Emb) (u : string)
    (us : list string) :
  matching' t_vec (e :: embs) (u :: us)
  = if Qgtb (cosine_similarity t_vec e) (1 - threshold)
    then u :: matching' t_vec embs us
    else matching' t_vec embs us.
Proof.
  unfold matching. simpl.
  by destruct (Qgtb (cosine_similarity t_vec e) (1 - threshold)).
Qed.

Lemma match_images_from (t_vec : Emb) (urls : list string) :
  ∀ (embs : list Emb) (us pre : list string) (k : nat) (acc : list string),
    urls = pre ++ us → k = length pre → length embs ≤ length us →
    (for_each (match_image' t_vec urls) (imap (λ i x, (k + i, x)) embs) acc).1
    = Ok (acc ++ matching' t_vec embs us).
Proof.
  induction embs as [|e embs IH]; intros us pre k acc Hurls Hk Hlen.
  - simpl. by rewrite app_nil_r.
  - destruct us as [|u us]; [simpl in Hlen; lia|].
    rewrite enumerate_from, matching_cons.
    assert (Hu : urls !! k = Some u).
    { subst. rewrite lookup_app_r by lia. by rewrite Nat.sub_diag. }
    assert (Hstep : (match_image' t_vec urls acc (k, e)).1
                    = Ok (if Qgtb (cosine_similarity t_vec e) (1 - threshold)
                          then acc ++ [u] else acc)).
    { unfold match_image.
      destruct (Qgtb (cosine_similarity t_vec e) (1 - threshold)); [|done].
      by rewrite (bind_Ok _ _ u (index_Ok _ _ _ Hu)). }
    rewrite (for_each_cons _ _ _ _ _ Hstep).
    rewrite (IH us (pre ++ [u]) (S k)).
    + destruct (Qgtb (cosine_similarity t_vec e) (1 - threshold)); [|done].
      by rewrite <- (assoc_L (++)).
    + by rewrite <- (assoc_L (++)).
    + rewrite length_app. simpl. lia.
    + simpl in Hlen. lia.
Qed.

Lemma match_images_spec (t_vec : Emb) (embs : list Emb) (urls : list string) :
  length embs ≤ length urls →
  (for_each (match_image' t_vec urls) (Py.enumerate embs) []).1
  = Ok (matching' t_vec embs urls).
Proof. intros H. by apply (match_images_from t_vec urls embs urls [] 0 []). Qed.

Lemma group_texts_from (vt : list string) (embs : list Emb)
    (urls : list string) :
  length embs ≤ length urls →
  ∀ (tembs : list Emb) (ts pre : list string) (k : nat) (acc : list record),
    vt = pre ++ ts → k = length pre → length tembs ≤ length ts →
    (for_each (group_text' vt embs urls) (imap (λ i x, (k + i, x)) tembs) acc).1
    = Ok (acc ++ zip_with
                   (λ t_vec text,
                      [("text", VStr text);
                       ("matches", VStrs (matching' t_vec embs urls))])
                   tembs ts).
Proof.
  intros Hemb.
  induction tembs as [|t_vec tembs IH]; intros ts pre k acc Hvt Hk Hlen.
  - simpl. by rewrite app_nil_r.
  - destruct ts as [|text ts]; [simpl in Hlen; lia|].
    rewrite enumerate_from.
    assert (Ht : vt !! k = Some text).
    { subst. rewrite lookup_app_r by lia. by rewrite Nat.sub_diag. }
    assert (Hstep : (group_text' vt embs urls acc (k, t_vec)).1
                    = Ok (acc ++ [[("text", VStr text);
                                   ("matches", VStrs (matching' t_vec embs urls))]])).
    { unfold group_text.
      rewrite (bind_Ok _ _ text (index_Ok _ _ _ Ht)).
      by rewrite (bind_Ok _ _ _ (match_images_spec t_vec embs urls Hemb)). }
    rewrite (for_each_cons _ _ _ _ _ Hstep).
    rewrite (IH ts (pre ++ [text]) (S k)).
    + simpl. by rewrite <- (assoc_L (++)).
    + by rewrite <- (assoc_L (++)).
    + rewrite length_app. simpl. lia.
    + simpl in Hlen. lia.
Qed.

(** The response of [group_by_similarity] once the texts are embedded. *)
Lemma group_by_similarity_spec (texts image_urls : list string)
    (rows image_embeddings : list Emb) (valid_image_urls : list string) :
  existsb Py.nonblank texts = true →
  get_text_features (List.filter Py.nonblank texts) = Ok rows →
  length rows ≤ length (List.filter Py.nonblank texts) →
  (embed_images' image_urls).1 = Ok (image_embeddings, valid_image_urls) →
  (group_by_similarity' texts image_urls).1
  = Ok (zip_with
          (λ t_vec text,
             [("text", VStr text);
              ("matches",
               VStrs (matching' t_vec image_embeddings valid_image_urls))])
          (map normalize rows) (List.filter Py.nonblank texts)).
Proof.
  intros Hany Hrows Hlen Himgs. unfold group_by_similarity.
  rewrite Hany. destruct texts as [|t texts]; [done|].
  cbn [Py.bool_of_list negb orb].
  assert (Htf : (clip_text_features get_text_features
                   (List.filter Py.nonblank (t :: texts))).1 = Ok rows)
    by done.
  rewrite (bind_Ok _ _ _ Htf), (bind_Ok _ _ _ Himgs).
  destruct (embed_images_inv _ _ _ Himgs) as (Hlock & _ & _).
  rewrite (group_texts_from _ _ _ (Nat.eq_le_incl _ _ Hlock)
             (map normalize rows) (List.filter Py.nonblank (t :: texts)) [] 0 []);
    [done..|].
  by rewrite length_map.
Qed.

Lemma matching_elem (t_vec : Emb) (u : string) :
  ∀ (embs : list Emb) (urls : list string),
    u ∈ matching' t_vec embs urls
    ↔ ∃ j e, embs !! j = Some e ∧ urls !! j = Some u
             ∧ (1 - threshold < cosine_similarity t_vec e)%Q.
Proof.
  induction embs as [|e embs IH]; intros [|u0 us].
  - split; [by intros ?%elem_of_nil | by intros (j & e & ? & _)].
  - split; [by intros ?%elem_of_nil | by intros (j & e & ? & _)].
  - split; [by intros ?%elem_of_nil | by intros (j & e' & _ & ? & _)].
  - rewrite matching_cons.
    destruct (Qgtb (cosine_similarity t_vec e) (1 - threshold)) eqn:E.
    + rewrite elem_of_cons, IH. split.
      * intros [->|(j & e' & ? & ? & ?)].
        -- exists 0, e. by apply Qgtb_true in E.
        -- by exists (S j), e'.
      * intros ([|j] & e' & He & Hu & Hc); simpl in *.
        -- left. congruence.
        -- right. by exists j, e'.
    + rewrite IH. split.
      * intros (j & e' & ? & ? & ?). by exists (S j), e'.
      * intros ([|j] & e' & He & Hu & Hc); simpl in *.
        -- injection He as <-. apply Qgtb_true in Hc. congruence.
        -- by exists j, e'.
Qed.

Lemma matching_sublist (t_vec : Emb) :
  ∀ (embs : list Emb) (urls : list string),
    matching' t_vec embs urls `sublist_of` urls.
Proof.
  induction embs as [|e embs IH]; intros [|u us];
    try apply sublist_nil_l.
  rewrite matching_cons.
  destruct (Qgtb (cosine_similarity t_vec e) (1 - threshold)).
  - by apply sublist_skip.
  - by apply sublist_cons.
Qed.

(** C1: in [group_by_similarity], for every embedded text [i] and every
    successfully embedded image [j], the URL of the image is in the matches
    of the entry of text [i] if and only if the cosine similarity of the two
    normalised embeddings is strictly above [7/10], the value of
    [1 - threshold] for the fixed threshold [3/10]. *)
Theorem group_threshold_cutoff (texts image_urls : list string)
    (rows image_embeddings : list Emb) (valid_image_urls : list string) :
  existsb Py.nonblank texts = true →
  get_text_features (List.filter Py.nonblank texts) = Ok rows →
  length rows = length (List.filter Py.nonblank texts) →
  (embed_images' image_urls).1 = Ok (image_embeddings, valid_image_urls) →
  threshold = 3 # 10
  ∧ ∃ grouped,
      (group_by_similarity' texts image_urls).1 = Ok grouped
      ∧ ∀ i t_vec,
          map normalize rows !! i = Some t_vec →
          ∃ text matches,
            List.filter Py.nonblank texts !! i = Some text
            ∧ grouped !! i
              = Some [("text", VStr text); ("matches", VStrs matches)]
            ∧ ∀ j i_vec url,
                image_embeddings !! j = Some i_vec →
                valid_image_urls !! j = Some url →
                (url ∈ matches ↔ (7 # 10 < cosine_similarity t_vec i_vec)%Q).
Proof.
  intros Hany Hrows Hlen Himgs. split; [done|].
  eexists. split.
  { eapply group_by_similarity_spec; eauto. lia. }
  intros i t_vec Ht.
  destruct (lookup_lt_is_Some_2 (List.filter Py.nonblank texts) i) as [text Htext].
  { rewrite <- Hlen, <- (length_map normalize). by eapply lookup_lt_Some. }
  exists text, (matching' t_vec image_embeddings valid_image_urls).
  split_and!; [done|by rewrite lookup_zip_with, Ht, Htext|].
  intros j i_vec url Hj Hu.
  destruct (embed_images_inv _ _ _ Himgs) as (_ & _ & Hsame).
  rewrite matching_elem. split.
  - intros (j' & e & He & Hu' & Hc).
    pose proof (Hsame _ _ _ He Hu') as H1.
    pose proof (Hsame _ _ _ Hj Hu) as H2.
    assert (e = i_vec) as -> by congruence. exact Hc.
  - intros Hc. by exists j, i_vec.
Qed.

(** C2: when no text of the request has non-whitespace content,
    [group_by_similarity] returns exactly the empty list whatever the images
    are, and its call log is empty: nothing is embedded and nothing is
    fetched. *)
Theorem group_no_text_short_circuit (texts image_urls : list string) :
  (∀ t, t ∈ texts → ¬ Py.has_content t) →
  group_by_similarity' texts image_urls = (Ok [], []).
Proof.
  intros H. unfold group_by_similarity.
  rewrite (existsb_nonblank_false texts H).
  by rewrite orb_true_r.
Qed.

Lemma image_embedding_fails (url : string) :
  (∃ e, load_image url = Raise e)
  ∨ (∃ image e, load_image url = Ok image ∧ get_image_features image = Raise e) →
  image_embedding' url = None.
Proof.
  unfold image_embedding.
  intros [[e ->]|(image & e & -> & ->)]; done.
Qed.

Lemma embeds_false (url : string) :
  image_embedding' url = None → embeds' url = false.
Proof.
  intros H. unfold embeds. rewrite H.
  rewrite bool_decide_false by (by intros [? ?]). apply andb_false_r.
Qed.

(** C4: with at least one non-blank text, the response has exactly one
    entry per non-blank text, in input order; the matches of entry [i] are
    exactly the URLs whose embedding scores above the cutoff against row
    [i], listed in the order in which the images were embedded, which is the
    input order of the URLs that embed; an image whose fetch or embedding
    fails is in no matches list, and an entry has the two keys [text] and
    [matches] only, so no error is reported. *)
Theorem group_entries_in_order (texts image_urls : list string)
    (rows : list Emb) :
  existsb Py.nonblank texts = true →
  get_text_features (List.filter Py.nonblank texts) = Ok rows →
  length rows = length (List.filter Py.nonblank texts) →
  ∃ grouped image_embeddings valid_image_urls,
    (group_by_similarity' texts image_urls).1 = Ok grouped
    ∧ (embed_images' image_urls).1 = Ok (image_embeddings, valid_image_urls)
    ∧ valid_image_urls = List.filter embeds' image_urls
    ∧ length grouped = length (List.filter Py.nonblank texts)
    ∧ ∀ i text,
        List.filter Py.nonblank texts !! i = Some text →
        ∃ t_vec matches,
          map normalize rows !! i = Some t_vec
          ∧ grouped !! i = Some [("text", VStr text); ("matches", VStrs matches)]
          ∧ matches = matching' t_vec image_embeddings valid_image_urls
          ∧ (∀ url,
               url ∈ matches
               ↔ ∃ j i_vec,
                   image_embeddings !! j = Some i_vec
                   ∧ valid_image_urls !! j = Some url
                   ∧ (7 # 10 < cosine_similarity t_vec i_vec)%Q)
          ∧ matches `sublist_of` valid_image_urls
          ∧ ∀ url,
              (∃ e, load_image url = Raise e)
              ∨ (∃ image e, load_image url = Ok image
                            ∧ get_image_features image = Raise e) →
              url ∉ matches.
Proof.
  intros Hany Hrows Hlen.
  destruct (embed_images_spec image_urls) as (good & Himgs & Hurls & Hgood).
  eexists _, good.*1, good.*2. split_and!; [|done..| |].
  - eapply group_by_similarity_spec; eauto. lia.
  - rewrite length_zip_with, length_map. lia.
  - intros i text Htext.
    destruct (lookup_lt_is_Some_2 (map normalize rows) i) as [t_vec Ht].
    { rewrite length_map, Hlen. by eapply lookup_lt_Some. }
    exists t_vec, (matching' t_vec good.*1 good.*2).
    split_and!; [done|by rewrite lookup_zip_with, Ht, Htext|done
                |intros url; apply matching_elem|apply matching_sublist|].
    intros url Hfail (j & e & He & Hu & _)%matching_elem.
    destruct (embed_images_inv _ _ _ Himgs) as (_ & _ & Hsame).
    apply image_embedding_fails in Hfail.
    rewrite (Hsame _ _ _ He Hu) in Hfail. done.
Qed.

(** C8: with at least one non-blank text, when no image of the request
    embeds successfully, in particular when the list of images is empty,
    every entry of the response has an empty matches list. *)
Theorem group_no_image_no_match (texts image_urls : list string)
    (rows : list Emb) :
  existsb Py.nonblank texts = true →
  get_text_features (List.filter Py.nonblank texts) = Ok rows →
  length rows = length (List.filter Py.nonblank texts) →
  (∀ url, url ∈ image_urls → Py.nonblank url = true →
          (∃ e, load_image url = Raise e)
          ∨ (∃ image e, load_image url = Ok image
                        ∧ get_image_features image = Raise e)) →
  ∃ grouped,
    (group_by_similarity' texts image_urls).1 = Ok grouped
    ∧ length grouped = length (List.filter Py.nonblank texts)
    ∧ ∀ r, r ∈ grouped →
           ∃ text, r = [("text", VStr text); ("matches", VStrs [])].
Proof.
  intros Hany Hrows Hlen Hfail.
  destruct (embed_images_spec image_urls) as (good & Himgs & Hurls & _).
  assert (Hnone : good = []).
  { apply (fmap_nil_inv snd). rewrite Hurls. apply filter_none.
    intros url Hin. destruct (Py.nonblank url) eqn:Hnb.
    - apply embeds_false, image_embedding_fails, Hfail; [|done].
      by apply list_elem_of_In.
    - unfold embeds. by rewrite Hnb. }
  subst good. eexists. split_and!.
  - eapply group_by_similarity_spec; eauto. lia.
  - rewrite length_zip_with, length_map. lia.
  - intros r (t_vec & text & -> & _)%elem_of_zip_with. by exists text.
Qed.

(** C10: in [group_by_similarity] the parallel sequences stay aligned.
    The embedding matrix has one row per non-blank text; at every iteration
    of the image loop the list of embeddings and the list of URLs have the
    same length, and the embedding at position [j] is the one computed from
    the URL at position [j]; hence every access [valid_texts[i]] and
    [valid_image_urls[j]] of the comparison loop is in bounds, no
    [IndexError] is raised, and entry [i] pairs the text at position [i] with
    the matches computed from row [i]. *)
Theorem group_sequences_aligned (texts image_urls : list string)
    (rows : list Emb) :
  existsb Py.nonblank texts = true →
  get_text_features (List.filter Py.nonblank texts) = Ok rows →
  length rows = length (List.filter Py.nonblank texts) →
  ∃ image_embeddings valid_image_urls grouped,
    (embed_images' image_urls).1 = Ok (image_embeddings, valid_image_urls)
    ∧ (group_by_similarity' texts image_urls).1 = Ok grouped
    ∧ length (map normalize rows) = length (List.filter Py.nonblank texts)
    ∧ length image_embeddings = length valid_image_urls
    ∧ (∀ seen todo, image_urls = seen ++ todo →
         ∃ es us,
           (embed_images' seen).1 = Ok (es, us)
           ∧ length es = length us
           ∧ (embed_images' image_urls).1 = (for_each embed_image' todo (es, us)).1)
    ∧ (∀ j i_vec,
         image_embeddings !! j = Some i_vec →
         ∃ url image features,
           (index valid_image_urls j).1 = Ok url
           ∧ load_image url = Ok image
           ∧ get_image_features image = Ok features
           ∧ i_vec = normalize features)
    ∧ (∀ i t_vec,
         map normalize rows !! i = Some t_vec →
         ∃ text,
           (index (List.filter Py.nonblank texts) i).1 = Ok text
           ∧ grouped !! i
             = Some [("text", VStr text);
                     ("matches",
                      VStrs (matching' t_vec image_embeddings valid_image_urls))]).
Proof.
  intros Hany Hrows Hlen.
  destruct (embed_images_spec image_urls) as (good & Himgs & Hurls & Hgood).
  destruct (embed_images_inv _ _ _ Himgs) as (Hlock & _ & Hsame).
  eexists good.*1, good.*2, _. split_and!; [done| |by rewrite length_map|done|..].
  - eapply group_by_similarity_spec; eauto. lia.
  - intros pre todo ->.
    destruct (embed_images_spec pre) as (good' & Hpre & _ & _).
    exists good'.*1, good'.*2. split_and!; [done|by rewrite !length_fmap|].
    unfold embed_images. by apply for_each_app.
  - intros j i_vec Hj.
    destruct (lookup_lt_is_Some_2 good.*2 j) as [url Hu].
    { rewrite <- Hlock. by eapply lookup_lt_Some. }
    pose proof (Hsame _ _ _ Hj Hu) as Hemb. unfold image_embedding in Hemb.
    destruct (load_image url) as [image|] eqn:Himg; [|done].
    destruct (get_image_features image) as [features|] eqn:Hf; [|done].
    exists url, image, features.
    split_and!; [by apply index_Ok|done..|congruence].
  - intros i t_vec Ht.
    destruct (lookup_lt_is_Some_2 (List.filter Py.nonblank texts) i)
      as [text Htext].
    { rewrite <- Hlen, <- (length_map normalize). by eapply lookup_lt_Some. }
    exists text. split; [by apply index_Ok|].
    by rewrite lookup_zip_with, Ht, Htext.
Qed.

End GroupFacts.

(** ** Facts about [classify_art_style] *)

Section ArtFacts.

Context {Emb Img : Type}.
Variable get_text_features : list string → result (list Emb).
Variable load_image : string → result Img.
Variable get_image_features : Img → result Emb.
Variable normalize : Emb → Emb.
Variable cosine_similarity : Emb → Emb → Q.

Local Abbreviation classify_style' :=
  (classify_style get_text_features load_image get_image_features normalize
     cosine_similarity).
Local Abbreviation style_success' :=
  (style_success get_text_features load_image get_image_features normalize
     cosine_similarity).
Local Abbreviation art_style_step' :=
  (art_style_step get_text_features load_image get_image_features normalize
     cosine_similarity).
Local Abbreviation classify_art_style' :=
  (classify_art_style get_text_features load_image get_image_features
     normalize cosine_similarity).

Lemma unknown_not_style : "unknown" ∉ art_styles.
Proof.
  unfold art_styles. intros H.
  repeat (apply elem_of_cons in H as [H|H]; [discriminate H|]).
  by apply elem_of_nil in H.
Qed.

Lemma classify_style_inv (image_url : string) (r : record) :
  (classify_style' image_url).1 = Ok r → style_success' image_url r.
Proof.
  unfold classify_style. intros H.
  apply bind_Ok_inv in H as (image & Himage & H).
  apply bind_Ok_inv in H as (features & Hfeatures & H).
  apply bind_Ok_inv in H as (rows & Hrows & H).
  apply bind_Ok_inv in H as (sims & [= <-] & H).
  apply bind_Ok_inv in H as (k & Hk%argmax_Ok & H).
  apply bind_Ok_inv in H as (style & Hstyle%index_Ok_inv & H).
  apply bind_Ok_inv in H as (confidence & Hconf%index_Ok_inv & [= <-]).
  by exists image, features, rows, k, style, confidence.
Qed.

Lemma classify_style_fails (image_url : string) (e : exn) :
  load_image image_url = Raise e
  ∨ (∃ image, load_image image_url = Ok image
              ∧ get_image_features image = Raise e) →
  (classify_style' image_url).1 = Raise e.
Proof.
  unfold classify_style, fetch_image, clip_image_features.
  intros [H|(image & H & H')].
  - by apply bind_Raise.
  - rewrite (bind_Ok _ _ image) by done. by apply bind_Raise.
Qed.

(** One iteration appends nothing for a blank URL and exactly one record
    otherwise, a success record or the error record. *)
Lemma art_style_step_spec (image_url : string) :
  ∃ recs,
    (∀ results, (art_style_step' results image_url).1 = Ok (results ++ recs))
    ∧ if Py.nonblank image_url then
        ∃ r, recs = [r]
             ∧ ((style_success' image_url r
                 ∧ (classify_style' image_url).1 = Ok r)
                ∨ ∃ e, (classify_style' image_url).1 = Raise e
                       ∧ r = style_error image_url e)
      else recs = [].
Proof.
  unfold art_style_step.
  destruct (Py.nonblank image_url); cbn [negb].
  - destruct (classify_style' image_url).1 as [r|e] eqn:Hr.
    + exists [r]. split.
      * intros results. apply try_except_Ok. by rewrite (bind_Ok _ _ r).
      * exists r. split; [done|]. left. split; [|done].
        by apply classify_style_inv.
    + exists [style_error image_url e]. split.
      * intros results.
        rewrite (try_except_Raise _ _ e); [done|]. by apply bind_Raise.
      * exists (style_error image_url e). split; [done|]. right. by exists e.
  - exists []. split; [|done]. intros results. by rewrite app_nil_r.
Qed.

Lemma art_style_loop (images : list string) :
  ∃ results,
    (∀ s, (for_each art_style_step' images s).1 = Ok (s ++ results))
    ∧ (classify_art_style' images).1 = Ok [("classifications", results)].
Proof.
  destruct (for_each_appends art_style_step' images) as [results Hrun].
  { intros url _. destruct (art_style_step_spec url) as (recs & H & _). eauto. }
  exists results. split; [done|].
  unfold classify_art_style. apply try_except_Ok.
  by rewrite (bind_Ok _ _ _ (Hrun [])).
Qed.

(** The records of the response, against the attempted URLs in order. *)
Lemma art_style_records (images : list string) :
  ∃ results,
    (classify_art_style' images).1 = Ok [("classifications", results)]
    ∧ Forall2
        (λ image_url r,
           style_success' image_url r
           ∨ ∃ e, (classify_style' image_url).1 = Raise e
                  ∧ r = style_error image_url e)
        (List.filter Py.nonblank images) results.
Proof.
  destruct (art_style_loop images) as (results & Hrun & Hresp).
  exists results. split; [done|].
  pose proof (Hrun []) as Hrun0.
  eapply (for_each_Forall2 art_style_step' Py.nonblank) in Hrun0
    as (recs & Heq & Hrecs).
  - simpl in Heq. by subst recs.
  - intros s url s' _ Hstep.
    destruct (art_style_step_spec url) as (recs & Hs & Hcase).
    rewrite Hs in Hstep. injection Hstep as <-.
    destruct (Py.nonblank url).
    + destruct Hcase as (r & -> & [[Hr _]|(e & He & ->)]); eauto 6.
    + subst recs. by rewrite app_nil_r.
Qed.

(** The record of each attempted URL is the one its [try] block returns,
    or the error record of the exception the block raises. *)
Lemma art_style_records_run (images : list string) :
  ∃ results,
    (classify_art_style' images).1 = Ok [("classifications", results)]
    ∧ Forall2
        (λ image_url r,
           (classify_style' image_url).1 = Ok r
           ∨ ∃ e, (classify_style' image_url).1 = Raise e
                  ∧ r = style_error image_url e)
        (List.filter Py.nonblank images) results.
Proof.
  destruct (art_style_loop images) as (results & Hrun & Hresp).
  exists results. split; [done|].
  pose proof (Hrun []) as Hrun0.
  eapply (for_each_Forall2 art_style_step' Py.nonblank) in Hrun0
    as (recs & Heq & Hrecs).
  - simpl in Heq. by subst recs.
  - intros s url s' _ Hstep.
    destruct (art_style_step_spec url) as (recs & Hs & Hcase).
    rewrite Hs in Hstep. injection Hstep as <-.
    destruct (Py.nonblank url).
    + destruct Hcase as (r & -> & [[_ Hr]|(e & He & ->)]); eauto 6.
    + subst recs. by rewrite app_nil_r.
Qed.

(** When the image is fetched and embedded and the text tower returns one
    row per style label, the [try] block returns the record of the label at
    the first maximal similarity. *)
Lemma classify_style_succeeds (image_url : string) (image : Img)
    (features : Emb) (rows : list Emb) :
  load_image image_url = Ok image →
  get_image_features image = Ok features →
  get_text_features art_styles = Ok rows →
  length rows = length art_styles →
  ∃ k style confidence,
    first_max (map (cosine_similarity (normalize features))
                 (map normalize rows)) k
    ∧ art_styles !! k = Some style
    ∧ map (cosine_similarity (normalize features)) (map normalize rows) !! k
      = Some confidence
    ∧ (classify_style' image_url).1
      = Ok [("image", VStr image_url);
            ("style", VStr style);
            ("confidence", VNum confidence)].
Proof.
  intros Himage Hfeatures Hrows Hlen.
  set (sims := map (cosine_similarity (normalize features))
                 (map normalize rows)).
  assert (Hsims : length sims = 14) by (unfold sims; by rewrite !length_map).
  destruct (argmax_nonempty sims) as [k Hk].
  { intros E. by rewrite E in Hsims. }
  pose proof (argmax_Ok _ _ Hk) as Hmax.
  pose proof (first_max_lt _ _ Hmax) as Hlt.
  destruct (lookup_lt_is_Some_2 art_styles k) as [style Hstyle];
    [simpl; lia|].
  destruct (lookup_lt_is_Some_2 sims k) as [confidence Hconf]; [lia|].
  exists k, style, confidence. split_and!; [done..|].
  unfold classify_style.
  rewrite (bind_Ok _ _ image) by done.
  rewrite (bind_Ok _ _ features) by done.
  rewrite (bind_Ok _ _ rows) by done.
  rewrite (bind_Ok _ _ sims) by done.
  rewrite (bind_Ok _ _ k Hk).
  rewrite (bind_Ok _ _ style (index_Ok _ _ _ Hstyle)).
  rewrite (bind_Ok _ _ confidence (index_Ok _ _ _ Hconf)).
  done.
Qed.

Lemma classify_style_label_fails (image_url : string) (image : Img)
    (features : Emb) (e : exn) :
  load_image image_url = Ok image →
  get_image_features image = Ok features →
  get_text_features art_styles = Raise e →
  (classify_style' image_url).1 = Raise e.
Proof.
  intros Himage Hfeatures Hrows. unfold classify_style.
  rewrite (bind_Ok _ _ image) by done.
  rewrite (bind_Ok _ _ features) by done.
  by apply bind_Raise.
Qed.

(** C3: every record of the [classify_art_style] response has a [style]
    among the 14 fixed labels exactly when it has no [error] key, and the
    style ["unknown"] exactly when it has one; in a record without [error]
    the label is the one at the first maximal similarity between the image
    and the labels.  The response has one record per non-blank URL, in
    input order: a URL whose image is fetched and embedded, with the 14
    labels embedded, gets the record of the label at the first maximal
    similarity and no [error] key; a URL for which one of these steps raises
    gets the record with the style ["unknown"] and an [error] key. *)
Theorem art_style_label_or_unknown (images : list string) :
  length art_styles = 14
  ∧ ∃ results,
      (classify_art_style' images).1 = Ok [("classifications", results)]
      ∧ (∀ r, r ∈ results →
          (get "error" r = None
           ↔ ∃ style, get "style" r = Some (VStr style) ∧ style ∈ art_styles)
          ∧ (get "error" r ≠ None ↔ get "style" r = Some (VStr "unknown"))
          ∧ (get "error" r = None →
             ∃ image_url image features rows k style confidence,
               get "image" r = Some (VStr image_url)
               ∧ load_image image_url = Ok image
               ∧ get_image_features image = Ok features
               ∧ get_text_features art_styles = Ok rows
               ∧ first_max (map (cosine_similarity (normalize features))
                              (map normalize rows)) k
               ∧ art_styles !! k = Some style
               ∧ get "style" r = Some (VStr style)
               ∧ map (cosine_similarity (normalize features))
                   (map normalize rows) !! k = Some confidence
               ∧ get "confidence" r = Some (VNum confidence)))
      ∧ length results = length (List.filter Py.nonblank images)
      ∧ (∀ i image_url image features rows,
           List.filter Py.nonblank images !! i = Some image_url →
           load_image image_url = Ok image →
           get_image_features image = Ok features →
           get_text_features art_styles = Ok rows →
           length rows = length art_styles →
           ∃ k style confidence,
             first_max (map (cosine_similarity (normalize features))
                          (map normalize rows)) k
             ∧ art_styles !! k = Some style
             ∧ map (cosine_similarity (normalize features))
                 (map normalize rows) !! k = Some confidence
             ∧ results !! i
               = Some [("image", VStr image_url);
                       ("style", VStr style);
                       ("confidence", VNum confidence)])
      ∧ (∀ i image_url e,
           List.filter Py.nonblank images !! i = Some image_url →
           load_image image_url = Raise e
           ∨ (∃ image, load_image image_url = Ok image
                       ∧ get_image_features image = Raise e)
           ∨ (∃ image features,
                load_image image_url = Ok image
                ∧ get_image_features image = Ok features
                ∧ get_text_features art_styles = Raise e) →
           results !! i
           = Some [("image", VStr image_url);
                   ("style", VStr "unknown");
                   ("confidence", VNum 0);
                   ("error",
                    VStr (String.append "Failed to process image: "
                            (str_of_exn e)))]).
Proof.
  split; [done|].
  destruct (art_style_records_run images) as (results & Hresp & Hrecs).
  exists results. split_and!; [done| |by erewrite <- Forall2_length| |].
  - intros r Hr.
    apply list_elem_of_lookup_1 in Hr as [i Hi].
    destruct (Forall2_lookup_r _ _ _ _ _ Hrecs Hi) as (url & _ & Hcase).
    destruct Hcase as [Hok%classify_style_inv|(e & _ & ->)].
    + destruct Hok as (image & features & rows & k & style & confidence
                       & Himage & Hfeatures & Hrows & Hmax & Hstyle & Hconf
                       & ->).
      assert (Hin : style ∈ art_styles) by by eapply list_elem_of_lookup_2.
      split_and!.
      * split; [|done]. intros _. by exists style.
      * split; [intros H; by destruct H|].
        intros [= ->]. by destruct unknown_not_style.
      * intros _. by exists url, image, features, rows, k, style, confidence.
    + split_and!.
      * split; [done|]. intros (style & [= <-] & Hin).
        by apply unknown_not_style in Hin.
      * done.
      * done.
  - intros i url image features rows Hi Himage Hfeatures Hrows Hlen.
    destruct (classify_style_succeeds url image features rows)
      as (k & style & confidence & Hmax & Hstyle & Hconf & Hrun); [done..|].
    exists k, style, confidence. split_and!; [done..|].
    destruct (Forall2_lookup_l _ _ _ _ _ Hrecs Hi) as (r & Hri & Hcase).
    refine (eq_trans Hri _). f_equal.
    destruct Hcase as [Hr|(e & He & _)]; congruence.
  - intros i url e Hi Hfail.
    assert (Hrun : (classify_style' url).1 = Raise e).
    { destruct Hfail as [H|[(image & H & H')|(image & features & H & H' & H'')]].
      - apply classify_style_fails. by left.
      - apply classify_style_fails. right. by exists image.
      - by eapply classify_style_label_fails. }
    destruct (Forall2_lookup_l _ _ _ _ _ Hrecs Hi) as (r & Hri & Hcase).
    refine (eq_trans Hri _). f_equal.
    destruct Hcase as [Hr|(e' & He' & ->)]; [congruence|].
    assert (e' = e) as -> by congruence. done.
Qed.

(** C6: when fetching, decoding or embedding a non-blank URL fails in
    [classify_art_style], the response has for that URL the record with the
    URL, the style ["unknown"], the confidence [0] and a non-empty error
    message; the records of the URLs before it and after it are those of
    these URLs processed alone. *)
Theorem art_style_failure_isolated (before after : list string)
    (image_url : string) (e : exn) :
  Py.nonblank image_url = true →
  load_image image_url = Raise e
  ∨ (∃ image, load_image image_url = Ok image
              ∧ get_image_features image = Raise e) →
  ∃ rs1 rs2 msg,
    (classify_art_style' before).1 = Ok [("classifications", rs1)]
    ∧ (classify_art_style' after).1 = Ok [("classifications", rs2)]
    ∧ msg = String.append "Failed to process image: " (str_of_exn e)
    ∧ msg ≠ ""
    ∧ (classify_art_style' (before ++ image_url :: after)).1
      = Ok [("classifications",
             rs1 ++ [("image", VStr image_url);
                     ("style", VStr "unknown");
                     ("confidence", VNum 0);
                     ("error", VStr msg)] :: rs2)].
Proof.
  intros Hnb Hfail.
  destruct (art_style_loop before) as (rs1 & Hrun1 & Hresp1).
  destruct (art_style_loop after) as (rs2 & Hrun2 & Hresp2).
  exists rs1, rs2, (String.append "Failed to process image: " (str_of_exn e)).
  split_and!; [done..|].
  assert (Hstep : (art_style_step' rs1 image_url).1
                  = Ok (rs1 ++ [style_error image_url e])).
  { unfold art_style_step. rewrite Hnb. cbn [negb].
    rewrite (try_except_Raise _ _ e); [done|].
    apply bind_Raise. by apply classify_style_fails. }
  unfold classify_art_style. apply try_except_Ok.
  erewrite bind_Ok; [reflexivity|].
  rewrite (for_each_app _ _ _ _ _ (Hrun1 [])).
  rewrite (for_each_cons _ _ _ _ _ Hstep), Hrun2.
  by rewrite <- (assoc_L (++)).
Qed.

End ArtFacts.

(** ** Facts about [classify_mood_theme] *)

Section MoodFacts.

Context {Emb Img : Type}.
Variable get_text_features : list string → result (list Emb).
Variable load_image : string → result Img.
Variable get_image_features : Img → result Emb.
Variable normalize : Emb → Emb.
Variable cosine_similarity : Emb → Emb → Q.

Local Abbreviation mood_theme_of' :=
  (mood_theme_of get_text_features normalize cosine_similarity).
Local Abbreviation mood_theme_success' :=
  (mood_theme_success get_text_features normalize cosine_similarity).
Local Abbreviation mood_theme_text' :=
  (mood_theme_text get_text_features normalize cosine_similarity).
Local Abbreviation mood_theme_image_try' :=
  (mood_theme_image_try get_text_features load_image get_image_features
     normalize cosine_similarity).
Local Abbreviation mood_theme_image' :=
  (mood_theme_image get_text_features load_image get_image_features
     normalize cosine_similarity).
Local Abbreviation classify_mood_theme' :=
  (classify_mood_theme get_text_features load_image get_image_features
     normalize cosine_similarity).

Lemma mood_theme_of_inv (type content : string) (item_norm : list Emb)
    (r : record) :
  (mood_theme_of' type content item_norm).1 = Ok r →
  mood_theme_success' type content item_norm r.
Proof.
  unfold mood_theme_of. intros H.
  apply bind_Ok_inv in H as (mood_rows & Hmr & H).
  apply bind_Ok_inv in H as (theme_rows & Htr & H).
  apply bind_Ok_inv in H as (msims & Hms & H).
  apply bind_Ok_inv in H as (tsims & Hts & H).
  apply bind_Ok_inv in H as (km & Hkm%argmax_Ok & H).
  apply bind_Ok_inv in H as (kt & Hkt%argmax_Ok & H).
  apply bind_Ok_inv in H as (mood & Hmood%index_Ok_inv & H).
  apply bind_Ok_inv in H as (theme & Htheme%index_Ok_inv & H).
  apply bind_Ok_inv in H as (mc & Hmc%index_Ok_inv & H).
  apply bind_Ok_inv in H as (tc & Htc%index_Ok_inv & [= <-]).
  by exists mood_rows, theme_rows, msims, tsims, km, kt, mood, theme, mc, tc.
Qed.

(** The labels of a classified item belong to the two fixed sets. *)
Lemma mood_theme_success_labels (type content : string)
    (item_norm : list Emb) (r : record) :
  mood_theme_success' type content item_norm r →
  get "type" r = Some (VStr type)
  ∧ get "content" r = Some (VStr content)
  ∧ get "error" r = None
  ∧ keys r = ["type"; "content"; "mood"; "theme";
              "mood_confidence"; "theme_confidence"]
  ∧ ∃ mood theme,
      get "mood" r = Some (VStr mood) ∧ mood ∈ mood_categories
      ∧ get "theme" r = Some (VStr theme) ∧ theme ∈ theme_categories.
Proof.
  intros (mr & tr & ms & ts & km & kt & mood & theme & mc & tc
          & _ & _ & _ & _ & _ & _ & Hmood & Htheme & _ & _ & ->).
  split_and!; [done..|].
  exists mood, theme.
  split_and!; [done|by eapply list_elem_of_lookup_2|done
              |by eapply list_elem_of_lookup_2].
Qed.

Local Abbreviation text_record' :=
  (text_record get_text_features normalize cosine_similarity).
Local Abbreviation image_record' :=
  (image_record get_text_features load_image get_image_features normalize
     cosine_similarity).

Lemma mood_theme_text_step (results : list record) (text : string)
    (results' : list record) :
  (mood_theme_text' results text).1 = Ok results' →
  if Py.nonblank text then
    ∃ r, results' = results ++ [r] ∧ text_record' text r
  else results' = results.
Proof.
  unfold mood_theme_text. destruct (Py.nonblank text).
  - intros H.
    apply bind_Ok_inv in H as (rows & Hrows & H).
    apply bind_Ok_inv in H as (r & Hr%mood_theme_of_inv & [= <-]).
    exists r. split; [done|]. by exists rows.
  - by intros [= <-].
Qed.

Lemma mood_theme_image_try_inv (url : string) (r : record) :
  (mood_theme_image_try' url).1 = Ok r →
  ∃ image features,
    load_image url = Ok image
    ∧ get_image_features image = Ok features
    ∧ mood_theme_success' "image" url [normalize features] r.
Proof.
  unfold mood_theme_image_try. intros H.
  apply bind_Ok_inv in H as (image & Himage & H).
  apply bind_Ok_inv in H as (features & Hfeatures & H%mood_theme_of_inv).
  by exists image, features.
Qed.


(** The image loop never raises: the [except] block turns every exception
    of the [try] block into a record. *)
Lemma mood_theme_image_step (results : list record) (url : string) :
  ∃ results',
    (mood_theme_image' results url).1 = Ok results'
    ∧ if Py.nonblank url then
        ∃ r, results' = results ++ [r] ∧ image_record' url r
      else results' = results.
Proof.
  unfold mood_theme_image. destruct (Py.nonblank url); [|by eexists].
  destruct (mood_theme_image_try' url).1 as [r|e] eqn:Hr.
  - exists (results ++ [r]). split.
    + apply try_except_Ok. by rewrite (bind_Ok _ _ r).
    + exists r. split; [done|]. left. by apply mood_theme_image_try_inv.
  - exists (results ++ [mood_theme_error url e]). split.
    + rewrite (try_except_Raise _ _ e); [done|]. by apply bind_Raise.
    + eexists. split; [done|]. right. by exists e.
Qed.

(** The response: the records of the non-blank texts, then the records of
    the non-blank URLs, both in input order. *)
Lemma mood_theme_structure (texts image_urls : list string)
    (results : list record) :
  (classify_mood_theme' texts image_urls).1 = Ok results →
  ∃ text_records image_records,
    results = text_records ++ image_records
    ∧ Forall2 text_record' (List.filter Py.nonblank texts) text_records
    ∧ Forall2 image_record' (List.filter Py.nonblank image_urls) image_records.
Proof.
  unfold classify_mood_theme. intros H.
  apply bind_Ok_inv in H as (trecs & Ht & Hi).
  apply (for_each_Forall2 _ Py.nonblank text_record') in Ht
    as (trecs' & -> & Htexts).
  2:{ intros s x s' _. apply mood_theme_text_step. }
  apply (for_each_Forall2 _ Py.nonblank image_record') in Hi
    as (irecs & -> & Himages).
  2:{ intros s x s' _ Hstep.
      destruct (mood_theme_image_step s x) as (s'' & Hs & Hcase).
      rewrite Hs in Hstep. by injection Hstep as <-. }
  by exists trecs', irecs.
Qed.

Lemma mood_theme_of_total (type content : string) (x : Emb) :
  (∀ labels, labels ∈ [mood_categories; theme_categories] →
             ∃ rows, get_text_features labels = Ok rows
                     ∧ length rows = length labels) →
  ∃ r, (mood_theme_of' type content [x]).1 = Ok r.
Proof.
  intros Hlabels.
  destruct (Hlabels mood_categories) as (mr & Hmr & Hml); [by left|].
  destruct (Hlabels theme_categories) as (tr & Htr & Htl);
    [by right; left|].
  set (ms := map (cosine_similarity x) (map normalize mr)).
  set (ts := map (cosine_similarity x) (map normalize tr)).
  assert (Hms : length ms = 8) by (unfold ms; by rewrite !length_map).
  assert (Hts : length ts = 10) by (unfold ts; by rewrite !length_map).
  destruct (argmax_nonempty ms) as [km Hkm].
  { intros E. by rewrite E in Hms. }
  destruct (argmax_nonempty ts) as [kt Hkt].
  { intros E. by rewrite E in Hts. }
  pose proof (first_max_lt _ _ (argmax_Ok _ _ Hkm)) as Hkm_lt.
  pose proof (first_max_lt _ _ (argmax_Ok _ _ Hkt)) as Hkt_lt.
  destruct (lookup_lt_is_Some_2 mood_categories km) as [mood Hmood];
    [simpl; lia|].
  destruct (lookup_lt_is_Some_2 theme_categories kt) as [theme Htheme];
    [simpl; lia|].
  destruct (lookup_lt_is_Some_2 ms km) as [mc Hmc]; [lia|].
  destruct (lookup_lt_is_Some_2 ts kt) as [tc Htc]; [lia|].
  eexists. unfold mood_theme_of.
  rewrite (bind_Ok _ _ mr) by done.
  rewrite (bind_Ok _ _ tr) by done.
  rewrite (bind_Ok _ _ ms) by done.
  rewrite (bind_Ok _ _ ts) by done.
  rewrite (bind_Ok _ _ km Hkm), (bind_Ok _ _ kt Hkt).
  rewrite (bind_Ok _ _ mood (index_Ok _ _ _ Hmood)).
  rewrite (bind_Ok _ _ theme (index_Ok _ _ _ Htheme)).
  rewrite (bind_Ok _ _ mc (index_Ok _ _ _ Hmc)).
  rewrite (bind_Ok _ _ tc (index_Ok _ _ _ Htc)).
  done.
Qed.

Lemma image_record_fields (url : string) (r : record) :
  image_record' url r →
  get "type" r = Some (VStr "image")
  ∧ get "content" r = Some (VStr url)
  ∧ (get "error" r ≠ None → ∃ e, r = mood_theme_error url e).
Proof.
  intros [(image & features & _ & _ & Hok)|(e & _ & ->)].
  - apply mood_theme_success_labels in Hok as (? & ? & Herr & _).
    split_and!; [done..|]. by intros [].
  - split_and!; [done..|]. intros _. by exists e.
Qed.

(** C5: the response of [classify_mood_theme] is the list of the records of
    the non-blank texts in input order followed by the records of the
    non-blank URLs in input order; a record without [error] has the six keys
    [type], [content], [mood], [theme], [mood_confidence] and
    [theme_confidence], its mood is one of the 8 mood labels and its theme
    one of the 10 theme labels, each being the label at the first maximum of
    its own similarity scores.  The handler returns when the text tower
    answers for the texts and the labels. *)
Theorem mood_theme_records (texts image_urls : list string) :
  length mood_categories = 8
  ∧ length theme_categories = 10
  ∧ (∀ results,
       (classify_mood_theme' texts image_urls).1 = Ok results →
       ∃ text_records image_records,
         results = text_records ++ image_records
         ∧ Forall2
             (λ text r,
                get "type" r = Some (VStr "text")
                ∧ get "content" r = Some (VStr text)
                ∧ text_record' text r)
             (List.filter Py.nonblank texts) text_records
         ∧ Forall2
             (λ url r,
                get "type" r = Some (VStr "image")
                ∧ get "content" r = Some (VStr url)
                ∧ image_record' url r)
             (List.filter Py.nonblank image_urls) image_records
         ∧ ∀ r, r ∈ results → get "error" r = None →
                keys r = ["type"; "content"; "mood"; "theme";
                          "mood_confidence"; "theme_confidence"]
                ∧ ∃ mood theme,
                    get "mood" r = Some (VStr mood)
                    ∧ mood ∈ mood_categories
                    ∧ get "theme" r = Some (VStr theme)
                    ∧ theme ∈ theme_categories)
  ∧ ((∀ labels, labels ∈ [mood_categories; theme_categories] →
                ∃ rows, get_text_features labels = Ok rows
                        ∧ length rows = length labels) →
     (∀ text, text ∈ texts → Py.nonblank text = true →
              ∃ rows, get_text_features [text] = Ok rows ∧ length rows = 1) →
     ∃ results, (classify_mood_theme' texts image_urls).1 = Ok results).
Proof.
  split_and!; [done..| |].
  - intros results Hrun.
    apply mood_theme_structure in Hrun as (trecs & irecs & -> & Ht & Hi).
    exists trecs, irecs. split_and!; [done| | |].
    + eapply Forall2_impl; [exact Ht|]. intros text r Hr. simpl.
      destruct Hr as (rows & Hrows & Hok).
      destruct (mood_theme_success_labels _ _ _ _ Hok) as (? & ? & _).
      split_and!; [done..|]. by exists rows.
    + eapply Forall2_impl; [exact Hi|]. intros url r Hr. simpl.
      destruct (image_record_fields _ _ Hr) as (? & ? & _). done.
    + intros r [Hr|Hr]%elem_of_app Herr.
      * apply list_elem_of_lookup_1 in Hr as [i Hr].
        destruct (Forall2_lookup_r _ _ _ _ _ Ht Hr)
          as (text & _ & rows & _ & Hok).
        by destruct (mood_theme_success_labels _ _ _ _ Hok)
          as (_ & _ & _ & ? & ?).
      * apply list_elem_of_lookup_1 in Hr as [i Hr].
        destruct (Forall2_lookup_r _ _ _ _ _ Hi Hr) as (url & _ & Hcase).
        destruct Hcase as [(image & features & _ & _ & Hok)|(e & _ & ->)];
          [|done].
        by destruct (mood_theme_success_labels _ _ _ _ Hok)
          as (_ & _ & _ & ? & ?).
  - intros Hlabels Htexts. unfold classify_mood_theme.
    destruct (for_each_total mood_theme_text' texts) with (s := @nil record)
      as [trecs Ht].
    { intros s text Hin. unfold mood_theme_text.
      destruct (Py.nonblank text) eqn:Hnb; [|by eexists].
      destruct (Htexts text Hin Hnb) as (rows & Hrows & Hlen).
      destruct rows as [|x [|? ?]]; try done.
      destruct (mood_theme_of_total "text" text (normalize x) Hlabels)
        as [r Hr].
      exists (s ++ [r]).
      rewrite (bind_Ok _ _ [x]) by done. simpl map.
      by rewrite (bind_Ok _ _ r Hr). }
    rewrite (bind_Ok _ _ _ Ht).
    apply for_each_total. intros s url _.
    destruct (mood_theme_image_step s url) as (s' & Hs & _). eauto.
Qed.


End MoodFacts.

(** ** The theorems on the toy instance *)

Lemma group_threshold_cutoff_witness :
  threshold = 3 # 10
  ∧ ∃ grouped,
      (Toy.group Toy.texts Toy.image_urls).1 = Ok grouped
      ∧ ∀ i t_vec,
          map Toy.normalize [11; 3]%Z !! i = Some t_vec →
          ∃ text matches,
            List.filter Py.nonblank Toy.texts !! i = Some text
            ∧ grouped !! i
              = Some [("text", VStr text); ("matches", VStrs matches)]
            ∧ ∀ j i_vec url,
                [11; 4]%Z !! j = Some i_vec →
                ["http://a.io"; "http"] !! j = Some url →
                (url ∈ matches
                 ↔ (7 # 10 < Toy.cosine_similarity t_vec i_vec)%Q).
Proof.
  apply (group_threshold_cutoff Toy.get_text_features Toy.load_image
           Toy.get_image_features Toy.normalize Toy.cosine_similarity
           Toy.texts Toy.image_urls [11; 3]%Z [11; 4]%Z
           ["http://a.io"; "http"]); reflexivity.
Defined.

Lemma group_no_text_short_circuit_witness :
  Toy.group ["  "; ""] Toy.image_urls = (Ok [], []).
Proof.
  apply (group_no_text_short_circuit Toy.get_text_features Toy.load_image
           Toy.get_image_features Toy.normalize Toy.cosine_similarity).
  intros t Ht (c & Hc & Hs).
  apply elem_of_cons in Ht as [->|Ht].
  - simpl in Hc.
    apply elem_of_cons in Hc as [->|Hc]; [discriminate Hs|].
    apply elem_of_cons in Hc as [->|Hc]; [discriminate Hs|].
    by apply elem_of_nil in Hc.
  - apply elem_of_cons in Ht as [->|Ht]; [|by apply elem_of_nil in Ht].
    by apply elem_of_nil in Hc.
Defined.

Lemma group_entries_in_order_witness :
  (∃ grouped image_embeddings valid_image_urls,
     (Toy.group Toy.texts Toy.image_urls).1 = Ok grouped
     ∧ (Toy.embed Toy.image_urls).1 = Ok (image_embeddings, valid_image_urls)
     ∧ valid_image_urls
       = List.filter
           (embeds Toy.load_image Toy.get_image_features Toy.normalize)
           Toy.image_urls
     ∧ length grouped = length (List.filter Py.nonblank Toy.texts)
     ∧ ∀ i text,
         List.filter Py.nonblank Toy.texts !! i = Some text →
         ∃ t_vec matches,
           map Toy.normalize [11; 3]%Z !! i = Some t_vec
           ∧ grouped !! i
             = Some [("text", VStr text); ("matches", VStrs matches)]
           ∧ matches
             = matching Toy.cosine_similarity t_vec image_embeddings
                 valid_image_urls
           ∧ (∀ url,
                url ∈ matches
                ↔ ∃ j i_vec,
                    image_embeddings !! j = Some i_vec
                    ∧ valid_image_urls !! j = Some url
                    ∧ (7 # 10 < Toy.cosine_similarity t_vec i_vec)%Q)
           ∧ matches `sublist_of` valid_image_urls
           ∧ ∀ url,
               (∃ e, Toy.load_image url = Raise e)
               ∨ (∃ image e, Toy.load_image url = Ok image
                             ∧ Toy.get_image_features image = Raise e) →
               url ∉ matches)
  ∧ (Toy.group Toy.texts Toy.image_urls).1
    = Ok [[("text", VStr "a red apple"); ("matches", VStrs ["http://a.io"])];
          [("text", VStr "cat"); ("matches", VStrs [])]]
  ∧ (Toy.embed Toy.image_urls).1 = Ok ([11; 4]%Z, ["http://a.io"; "http"]).
Proof.
  split; [|split; reflexivity].
  apply (group_entries_in_order Toy.get_text_features Toy.load_image
           Toy.get_image_features Toy.normalize Toy.cosine_similarity
           Toy.texts Toy.image_urls [11; 3]%Z); reflexivity.
Defined.

Lemma group_no_image_no_match_witness :
  ∃ grouped,
    (Toy.group Toy.texts ["ftp"; ""; "http://bad"]).1 = Ok grouped
    ∧ length grouped = length (List.filter Py.nonblank Toy.texts)
    ∧ ∀ r, r ∈ grouped →
           ∃ text, r = [("text", VStr text); ("matches", VStrs [])].
Proof.
  apply (group_no_image_no_match Toy.get_text_features Toy.load_image
           Toy.get_image_features Toy.normalize Toy.cosine_similarity
           Toy.texts ["ftp"; ""; "http://bad"] [11; 3]%Z);
    [reflexivity..|].
  intros url Hin Hnb.
  apply elem_of_cons in Hin as [->|Hin].
  { left. by exists (Exception "Invalid URL"). }
  apply elem_of_cons in Hin as [->|Hin]; [discriminate Hnb|].
  apply elem_of_cons in Hin as [->|Hin]; [|by apply elem_of_nil in Hin].
  right. by exists "http://bad", (Exception "cannot identify image file").
Defined.

Lemma group_sequences_aligned_witness :
  ∃ image_embeddings valid_image_urls grouped,
    (Toy.embed Toy.image_urls).1 = Ok (image_embeddings, valid_image_urls)
    ∧ (Toy.group Toy.texts Toy.image_urls).1 = Ok grouped
    ∧ length (map Toy.normalize [11; 3]%Z)
      = length (List.filter Py.nonblank Toy.texts)
    ∧ length image_embeddings = length valid_image_urls
    ∧ (∀ seen todo, Toy.image_urls = seen ++ todo →
         ∃ es us,
           (Toy.embed seen).1 = Ok (es, us)
           ∧ length es = length us
           ∧ (Toy.embed Toy.image_urls).1
             = (for_each
                  (embed_image Toy.load_image Toy.get_image_features
                     Toy.normalize) todo (es, us)).1)
    ∧ (∀ j i_vec,
         image_embeddings !! j = Some i_vec →
         ∃ url image features,
           (index valid_image_urls j).1 = Ok url
           ∧ Toy.load_image url = Ok image
           ∧ Toy.get_image_features image = Ok features
           ∧ i_vec = Toy.normalize features)
    ∧ (∀ i t_vec,
         map Toy.normalize [11; 3]%Z !! i = Some t_vec →
         ∃ text,
           (index (List.filter Py.nonblank Toy.texts) i).1 = Ok text
           ∧ grouped !! i
             = Some [("text", VStr text);
                     ("matches",
                      VStrs (matching Toy.cosine_similarity t_vec
                               image_embeddings valid_image_urls))]).
Proof.
  apply (group_sequences_aligned Toy.get_text_features Toy.load_image
           Toy.get_image_features Toy.normalize Toy.cosine_similarity
           Toy.texts Toy.image_urls [11; 3]%Z); reflexivity.
Defined.

Lemma art_style_label_or_unknown_witness :
  ∃ results k,
    (Toy.art Toy.image_urls).1 = Ok [("classifications", results)]
    ∧ results
      = [[("image", VStr "http://a.io"); ("style", VStr "renaissance");
          ("confidence", VNum 1)];
         [("image", VStr "ftp"); ("style", VStr "unknown");
          ("confidence", VNum 0);
          ("error", VStr "Failed to process image: Invalid URL")];
         [("image", VStr "http://bad"); ("style", VStr "unknown");
          ("confidence", VNum 0);
          ("error",
           VStr "Failed to process image: cannot identify image file")];
         [("image", VStr "http"); ("style", VStr "modern");
          ("confidence", VNum (7 # 10))]]
    ∧ first_max
        (map (Toy.cosine_similarity (Toy.normalize 11))
           (map Toy.normalize [13; 8; 9; 10; 7; 7; 6; 9; 7; 6; 13; 11; 7; 12]%Z))
        k
    ∧ art_styles !! k = Some "renaissance"
    ∧ results !! 0
      = Some [("image", VStr "http://a.io"); ("style", VStr "renaissance");
              ("confidence", VNum 1)]
    ∧ results !! 1
      = Some [("image", VStr "ftp"); ("style", VStr "unknown");
              ("confidence", VNum 0);
              ("error", VStr "Failed to process image: Invalid URL")]
    ∧ results !! 2
      = Some [("image", VStr "http://bad"); ("style", VStr "unknown");
              ("confidence", VNum 0);
              ("error",
               VStr "Failed to process image: cannot identify image file")]
    ∧ ∀ r, r ∈ results →
           (get "error" r = None
            ↔ ∃ style, get "style" r = Some (VStr style) ∧ style ∈ art_styles)
           ∧ (get "error" r ≠ None ↔ get "style" r = Some (VStr "unknown")).
Proof.
  destruct (art_style_label_or_unknown Toy.get_text_features Toy.load_image
              Toy.get_image_features Toy.normalize Toy.cosine_similarity
              Toy.image_urls)
    as (_ & results & Hrun & Hall & _ & Hsucc & Hfail).
  destruct (Hsucc 0 "http://a.io" "http://a.io" 11%Z
              [13; 8; 9; 10; 7; 7; 6; 9; 7; 6; 13; 11; 7; 12]%Z
              eq_refl eq_refl eq_refl eq_refl eq_refl)
    as (k & style & confidence & Hmax & Hstyle & Hconf & H0).
  pose proof (Hfail 1 "ftp" (Exception "Invalid URL") eq_refl
                (or_introl eq_refl)) as H1.
  pose proof (Hfail 2 "http://bad" (Exception "cannot identify image file")
                eq_refl
                (or_intror (or_introl
                   (ex_intro _ "http://bad" (conj eq_refl eq_refl))))) as H2.
  pose proof Hrun as Hres. vm_compute in Hres. injection Hres as Hres.
  assert (Hpin : style = "renaissance" ∧ confidence = 1%Q).
  { rewrite <- Hres in H0. simpl in H0. injection H0 as <- <-. done. }
  destruct Hpin as [-> ->].
  exists results, k.
  split_and!; [exact Hrun|by symmetry|exact Hmax|exact Hstyle|exact H0
              |exact H1|exact H2|].
  intros r Hr. destruct (Hall r Hr) as (Ha & Hb & _). by split.
Defined.

Lemma art_style_failure_isolated_witness :
  ∃ rs1 rs2 msg,
    (Toy.art ["http://a.io"]).1 = Ok [("classifications", rs1)]
    ∧ (Toy.art ["http:"]).1 = Ok [("classifications", rs2)]
    ∧ msg = String.append "Failed to process image: "
              (str_of_exn (Exception "Invalid URL"))
    ∧ msg ≠ ""
    ∧ (Toy.art (["http://a.io"] ++ "ftp" :: ["http:"])).1
      = Ok [("classifications",
             rs1 ++ [("image", VStr "ftp");
                     ("style", VStr "unknown");
                     ("confidence", VNum 0);
                     ("error", VStr msg)] :: rs2)].
Proof.
  apply (art_style_failure_isolated Toy.get_text_features Toy.load_image
           Toy.get_image_features Toy.normalize Toy.cosine_similarity
           ["http://a.io"] ["http:"] "ftp" (Exception "Invalid URL")).
  - reflexivity.
  - left. reflexivity.
Defined.

Lemma mood_theme_records_witness :
  (∃ text_records image_records,
     Toy.mood_results = text_records ++ image_records
     ∧ Forall2
         (λ text r,
            get "type" r = Some (VStr "text")
            ∧ get "content" r = Some (VStr text)
            ∧ text_record Toy.get_text_features Toy.normalize
                Toy.cosine_similarity text r)
         (List.filter Py.nonblank Toy.texts) text_records
     ∧ Forall2
         (λ url r,
            get "type" r = Some (VStr "image")
            ∧ get "content" r = Some (VStr url)
            ∧ image_record Toy.get_text_features Toy.load_image
                Toy.get_image_features Toy.normalize Toy.cosine_similarity
                url r)
         (List.filter Py.nonblank Toy.image_urls) image_records
     ∧ ∀ r, r ∈ Toy.mood_results → get "error" r = None →
            keys r = ["type"; "content"; "mood"; "theme";
                      "mood_confidence"; "theme_confidence"]
            ∧ ∃ mood theme,
                get "mood" r = Some (VStr mood)
                ∧ mood ∈ mood_categories
                ∧ get "theme" r = Some (VStr theme)
                ∧ theme ∈ theme_categories)
  ∧ ∃ results, (Toy.mood Toy.texts Toy.image_urls).1 = Ok results.
Proof.
  destruct (mood_theme_records Toy.get_text_features Toy.load_image
              Toy.get_image_features Toy.normalize Toy.cosine_similarity
              Toy.texts Toy.image_urls) as (_ & _ & Hresults & Hreturns).
  split.
  - apply (Hresults Toy.mood_results). reflexivity.
  - apply Hreturns.
    + intros labels Hin.
      apply elem_of_cons in Hin as [->|Hin]; [by eexists|].
      apply elem_of_cons in Hin as [->|Hin]; [by eexists|].
      by apply elem_of_nil in Hin.
    + intros text Hin Hnb. unfold Toy.texts in Hin.
      apply elem_of_cons in Hin as [->|Hin]; [by eexists|].
      apply elem_of_cons in Hin as [->|Hin]; [discriminate Hnb|].
      apply elem_of_cons in Hin as [->|Hin]; [by eexists|].
      by apply elem_of_nil in Hin.
Defined.


(** ** More facts about the handler monad: values with their call log *)

Lemma bind_ret_l {A B} (a : A) (f : A → io B) : mret a ≫= f = f a.
Proof.
  unfold mret, io_mret, io_ret, mbind, io_mbind, io_bind. by destruct (f a).
Qed.

Lemma bind_val {A B} (m : io A) (f : A → io B) (a : A) (log : list event) :
  m = (Ok a, log) → m ≫= f = ((f a).1, log ++ (f a).2).
Proof. intros ->. unfold mbind, io_mbind, io_bind. by destruct (f a). Qed.

Lemma bind_val_Raise {A B} (m : io A) (f : A → io B) (e : exn)
    (log : list event) :
  m = (Raise e, log) → m ≫= f = (Raise e, log).
Proof. by intros ->. Qed.

Lemma bind_log {A B} (m : io A) (f : A → io B) :
  (m ≫= f).2 = m.2 ++ match m.1 with Ok a => (f a).2 | Raise _ => [] end.
Proof.
  destruct m as [[a|e] log]; simpl.
  - unfold mbind, io_mbind, io_bind. by destruct (f a).
  - by rewrite app_nil_r.
Qed.

Lemma try_except_log {A} (body : io A) (h : exn → io A) :
  (try_except body h).2
  = body.2 ++ match body.1 with Ok _ => [] | Raise e => (h e).2 end.
Proof.
  destruct body as [[a|e] log]; simpl.
  - by rewrite app_nil_r.
  - by destruct (h e).
Qed.

Lemma silent_ret {A} (a : A) : silent (mret a : io A).
Proof. done. Qed.

Lemma silent_raise {A} (e : exn) : silent (raise e : io A).
Proof. done. Qed.

Lemma silent_index {A} (l : list A) (i : nat) : silent (index l i).
Proof. unfold index. by destruct (l !! i). Qed.

Lemma silent_argmax (l : list Q) : silent (argmax l).
Proof. by destruct l. Qed.

Lemma silent_bind {A B} (m : io A) (f : A → io B) :
  silent m → (∀ a, silent (f a)) → silent (m ≫= f).
Proof.
  unfold silent. intros Hm Hf. rewrite bind_log, Hm.
  destruct m.1; [apply Hf|done].
Qed.

Lemma silent_for_each {A S} (body : S → A → io S) (l : list A) :
  (∀ s x, silent (body s x)) → ∀ s, silent (for_each body l s).
Proof.
  intros Hbody. induction l as [|x l IH]; intros s; [done|].
  simpl. by apply silent_bind.
Qed.

Lemma for_each_unfold {A S} (body : S → A → io S) (x : A) (l : list A)
    (s : S) :
  for_each body (x :: l) s = body s x ≫= for_each body l.
Proof. done. Qed.

Lemma for_each_app_val {A S} (body : S → A → io S) (l1 l2 : list A)
    (s s1 : S) (log1 : list event) :
  for_each body l1 s = (Ok s1, log1) →
  for_each body (l1 ++ l2) s
  = ((for_each body l2 s1).1, log1 ++ (for_each body l2 s1).2).
Proof.
  revert s log1. induction l1 as [|x l1 IH]; intros s log1.
  - intros [= -> <-]. simpl. by destruct (for_each body l2 s1).
  - rewrite <- app_comm_cons, !for_each_unfold.
    destruct (body s x) as [[s'|e] log] eqn:Hstep; [|done].
    rewrite !(bind_val _ _ s' log eq_refl).
    destruct (for_each body l1 s') as [r log'] eqn:Hrest. simpl.
    intros [= -> <-]. rewrite (IH _ _ Hrest). simpl.
    by rewrite (assoc_L (++)).
Qed.

Lemma for_each_app_Raise {A S} (body : S → A → io S) (l1 l2 : list A)
    (s : S) (e : exn) (log1 : list event) :
  for_each body l1 s = (Raise e, log1) →
  for_each body (l1 ++ l2) s = (Raise e, log1).
Proof.
  revert s log1. induction l1 as [|x l1 IH]; intros s log1; [done|].
  rewrite <- app_comm_cons, !for_each_unfold.
  destruct (body s x) as [[s'|e'] log] eqn:Hstep; [|done].
  rewrite !(bind_val _ _ s' log eq_refl).
  destruct (for_each body l1 s') as [r log'] eqn:Hrest. simpl.
  intros [= -> <-]. by rewrite (IH _ _ Hrest).
Qed.

(** A loop whose iterations only append records, with calls that do not
    depend on the records so far. *)
Lemma for_each_appends_val {A B} (body : list B → A → io (list B))
    (recs : A → list B) (calls : A → list event) (l : list A) :
  (∀ x s, x ∈ l → body s x = (Ok (s ++ recs x), calls x)) →
  ∀ s, for_each body l s
       = (Ok (s ++ concat (map recs l)), concat (map calls l)).
Proof.
  induction l as [|x l IH]; intros Hbody s.
  - simpl. by rewrite app_nil_r.
  - rewrite for_each_unfold.
    rewrite (bind_val _ _ _ _ (Hbody x s ltac:(by left))).
    rewrite IH by (intros y s' Hy; apply Hbody; by right).
    simpl. by rewrite (assoc_L (++)).
Qed.

Lemma for_each_filter {A S} (body : S → A → io S) (keep : A → bool)
    (l : list A) :
  (∀ x s, x ∈ l → keep x = false → body s x = mret s) →
  ∀ s, for_each body l s = for_each body (List.filter keep l) s.
Proof.
  induction l as [|x l IH]; intros Hskip s; [done|].
  assert (Hrest : ∀ s', for_each body l s'
                        = for_each body (List.filter keep l) s').
  { apply IH. intros y s' Hy. apply Hskip. by right. }
  rewrite for_each_unfold. cbn [List.filter].
  destruct (keep x) eqn:Hk.
  - rewrite for_each_unfold. by apply bind_ext.
  - rewrite (Hskip x s) by (done || by left). by rewrite bind_ret_l.
Qed.

Lemma filter_filter_same {A} (f : A → bool) (l : list A) :
  List.filter f (List.filter f l) = List.filter f l.
Proof.
  induction l as [|x l IH]; simpl; [done|].
  destruct (f x) eqn:E; simpl; [|done]. by rewrite E, IH.
Qed.

Lemma existsb_filter_same {A} (f : A → bool) (l : list A) :
  existsb f (List.filter f l) = existsb f l.
Proof.
  induction l as [|x l IH]; simpl; [done|].
  destruct (f x) eqn:E; simpl; [|done]. by rewrite E.
Qed.

(** ** Further facts about the three endpoints *)

Section GroupCalls.

Context {Emb Img : Type}.
Variable get_text_features : list string → result (list Emb).
Variable load_image : string → result Img.
Variable get_image_features : Img → result Emb.
Variable normalize : Emb → Emb.
Variable cosine_similarity : Emb → Emb → Q.

Local Abbreviation embed_image' := (embed_image load_image get_image_features normalize).
Local Abbreviation embed_images' := (embed_images load_image get_image_features normalize).
Local Abbreviation embedded' := (embedded load_image get_image_features normalize).
Local Abbreviation image_calls' := (image_calls load_image).
Local Abbreviation matching' := (matching cosine_similarity).
Local Abbreviation group_by_similarity' :=
  (group_by_similarity get_text_features load_image get_image_features
     normalize cosine_similarity).

Lemma embed_image_log (st : list Emb * list string) (url : string) :
  (embed_image' st url).2 = image_calls' url.
Proof.
  unfold embed_image, image_calls, fetch_image, clip_image_features.
  destruct st as [es us]. destruct (Py.nonblank url); [|done].
  destruct (load_image url) as [image|e]; [|done]. simpl.
  by destruct (get_image_features image).
Qed.

Lemma embed_images_log (image_urls : list string) :
  ∀ st, (for_each embed_image' image_urls st).2
        = concat (map image_calls' image_urls).
Proof.
  induction image_urls as [|url urls IH]; intros [es us]; [done|].
  rewrite for_each_unfold, bind_log, embed_image_log.
  rewrite (embed_image_step load_image get_image_features normalize es us url).
  simpl. by rewrite IH.
Qed.

Lemma embed_images_val (image_urls : list string) :
  ∀ es us,
    (for_each embed_image' image_urls (es, us)).1
    = Ok (es ++ (embedded' image_urls).*1, us ++ (embedded' image_urls).*2).
Proof.
  induction image_urls as [|url urls IH]; intros es us.
  - simpl. by rewrite !app_nil_r.
  - rewrite (for_each_cons _ _ _ _ _
               (embed_image_step load_image get_image_features normalize
                  es us url)).
    unfold embedded. simpl omap.
    destruct (Py.nonblank url); [|apply IH].
    destruct (image_embedding load_image get_image_features normalize url)
      as [e|]; simpl; [|apply IH].
    rewrite IH. by rewrite <- !(assoc_L (++)).
Qed.

Lemma embedded_app (l1 l2 : list string) :
  embedded' (l1 ++ l2) = embedded' l1 ++ embedded' l2.
Proof. unfold embedded. apply omap_app. Qed.

Lemma silent_match_image (t_vec : Emb) (urls matches : list string)
    (ji : nat * Emb) :
  silent (match_image cosine_similarity t_vec urls matches ji).
Proof.
  unfold match_image. destruct ji as [j i_vec].
  destruct (Qgtb _ _); [|done].
  apply silent_bind; [apply silent_index|done].
Qed.

Lemma silent_group_text (vt : list string) (embs : list Emb)
    (urls : list string) (grouped : list record) (it : nat * Emb) :
  silent (group_text cosine_similarity vt embs urls grouped it).
Proof.
  unfold group_text. destruct it as [i t_vec].
  apply silent_bind; [apply silent_index|]. intros text.
  apply silent_bind; [|done].
  apply silent_for_each. intros. apply silent_match_image.
Qed.

Lemma matching_app (t_vec : Emb) (e1 e2 : list Emb) (u1 u2 : list string) :
  length e1 = length u1 →
  matching' t_vec (e1 ++ e2) (u1 ++ u2)
  = matching' t_vec e1 u1 ++ matching' t_vec e2 u2.
Proof.
  revert u1. induction e1 as [|e e1 IH]; intros [|u u1] Hlen;
    try discriminate Hlen; [done|].
  simpl app.
  rewrite !(matching_cons cosine_similarity).
  rewrite IH by (simpl in Hlen; lia).
  by destruct (Qgtb _ _).
Qed.

(** X1: when the text tower raises on the non-blank texts,
    [group_by_similarity] raises the same exception, and the only call made
    is that one: no image is fetched. *)
Theorem group_text_failure_stops (texts image_urls : list string) (e : exn) :
  existsb Py.nonblank texts = true →
  get_text_features (List.filter Py.nonblank texts) = Raise e →
  group_by_similarity' texts image_urls
  = (Raise e, [TextFeatures (List.filter Py.nonblank texts)]).
Proof.
  intros Hany Hraise. unfold group_by_similarity. rewrite Hany.
  destruct texts as [|t texts]; [done|]. cbn [Py.bool_of_list negb orb].
  apply bind_val_Raise. unfold clip_text_features. by rewrite Hraise.
Qed.

(** X2: once the texts are embedded, the calls of [group_by_similarity]
    are the single batch call to the text tower followed, for each non-blank
    URL in input order, by one fetch and, when the fetch succeeds, one call
    to the image tower.  The comparison of texts and images calls nothing,
    so an image is fetched once however many texts there are. *)
Theorem group_call_log (texts image_urls : list string) (rows : list Emb) :
  existsb Py.nonblank texts = true →
  get_text_features (List.filter Py.nonblank texts) = Ok rows →
  (group_by_similarity' texts image_urls).2
  = TextFeatures (List.filter Py.nonblank texts)
    :: concat (map image_calls' image_urls).
Proof.
  intros Hany Hrows. unfold group_by_similarity. rewrite Hany.
  destruct texts as [|t texts]; [done|]. cbn [Py.bool_of_list negb orb].
  rewrite bind_log. unfold clip_text_features at 1 2. cbn [fst snd].
  rewrite Hrows. cbn [app]. f_equal.
  rewrite bind_log. unfold embed_images at 1 2.
  rewrite embed_images_log, embed_images_val.
  rewrite (silent_for_each _ _ (silent_group_text _ _ _)).
  by rewrite app_nil_r.
Qed.

(** X4: the matches of a text for the images [l1 ++ l2] are its matches
    for [l1] followed by its matches for [l2]: appending images to a request
    never removes or reorders the matches found before. *)
Theorem group_images_append (texts l1 l2 : list string) (rows : list Emb) :
  existsb Py.nonblank texts = true →
  get_text_features (List.filter Py.nonblank texts) = Ok rows →
  length rows = length (List.filter Py.nonblank texts) →
  ∃ g1 g2 g,
    (group_by_similarity' texts l1).1 = Ok g1
    ∧ (group_by_similarity' texts l2).1 = Ok g2
    ∧ (group_by_similarity' texts (l1 ++ l2)).1 = Ok g
    ∧ ∀ i text,
        List.filter Py.nonblank texts !! i = Some text →
        ∃ m1 m2,
          g1 !! i = Some [("text", VStr text); ("matches", VStrs m1)]
          ∧ g2 !! i = Some [("text", VStr text); ("matches", VStrs m2)]
          ∧ g !! i = Some [("text", VStr text); ("matches", VStrs (m1 ++ m2))].
Proof.
  intros Hany Hrows Hlen.
  pose proof (embed_images_val l1 [] []) as H1.
  pose proof (embed_images_val l2 [] []) as H2.
  pose proof (embed_images_val (l1 ++ l2) [] []) as H12.
  rewrite embedded_app, !fmap_app in H12.
  eexists _, _, _. split_and!.
  - eapply group_by_similarity_spec; eauto. lia.
  - eapply group_by_similarity_spec; eauto. lia.
  - eapply group_by_similarity_spec; eauto. lia.
  - intros i text Htext.
    destruct (lookup_lt_is_Some_2 (map normalize rows) i) as [t_vec Ht].
    { rewrite length_map, Hlen. by eapply lookup_lt_Some. }
    eexists _, _. rewrite !lookup_zip_with, Ht, Htext. simpl.
    split_and!; [done..|].
    rewrite matching_app by by rewrite !length_fmap. done.
Qed.

End GroupCalls.

Lemma for_each_log {A S} (body : S → A → io S) (calls : A → list event)
    (l : list A) :
  (∀ s x, ∃ s', (body s x).1 = Ok s') →
  (∀ s x, (body s x).2 = calls x) →
  ∀ s, (for_each body l s).2 = concat (map calls l).
Proof.
  intros Hok Hcalls. induction l as [|x l IH]; intros s; [done|].
  rewrite for_each_unfold, bind_log, Hcalls.
  destruct (Hok s x) as [s' ->]. simpl. by rewrite IH.
Qed.

Lemma Forall2_map_eq {A B C} (R : A → B → Prop) (f : B → C) (g : A → C)
    (l : list A) (k : list B) :
  Forall2 R l k → (∀ x y, R x y → f y = g x) → map f k = map g l.
Proof.
  intros H Hfg. induction H as [|x y l k Hxy _ IH]; [done|].
  simpl. by rewrite IH, (Hfg x y Hxy).
Qed.

Lemma filter_all_blank (l : list string) :
  (∀ s, s ∈ l → ¬ Py.has_content s) → List.filter Py.nonblank l = [].
Proof.
  intros H. apply filter_none. intros s Hs.
  apply not_true_is_false. intros Hn%nonblank_has_content.
  apply (H s); [by apply list_elem_of_In|done].
Qed.

Section ArtCalls.

Context {Emb Img : Type}.
Variable get_text_features : list string → result (list Emb).
Variable load_image : string → result Img.
Variable get_image_features : Img → result Emb.
Variable normalize : Emb → Emb.
Variable cosine_similarity : Emb → Emb → Q.

Local Abbreviation classify_style' :=
  (classify_style get_text_features load_image get_image_features normalize
     cosine_similarity).
Local Abbreviation art_style_step' :=
  (art_style_step get_text_features load_image get_image_features normalize
     cosine_similarity).
Local Abbreviation classify_art_style' :=
  (classify_art_style get_text_features load_image get_image_features
     normalize cosine_similarity).
Local Abbreviation art_calls' :=
  (art_calls load_image get_image_features).

Lemma silent_cosine_similarity_rows (x y : list Emb) :
  silent (cosine_similarity_rows cosine_similarity x y).
Proof.
  unfold cosine_similarity_rows.
  destruct x as [|a [|a' x]]; destruct y as [|b [|b' y]]; try done;
    by destruct (_ =? _).
Qed.

Lemma classify_style_log (image_url : string) :
  (classify_style' image_url).2
  = Fetch image_url ::
    match load_image image_url with
    | Ok image =>
        ImageFeatures ::
        match get_image_features image with
        | Ok _ => [TextFeatures art_styles]
        | Raise _ => []
        end
    | Raise _ => []
    end.
Proof.
  unfold classify_style.
  rewrite bind_log. unfold fetch_image at 1 2. cbn [fst snd app]. f_equal.
  destruct (load_image image_url) as [image|e]; [|done].
  rewrite bind_log. unfold clip_image_features at 1 2. cbn [fst snd app].
  f_equal.
  destruct (get_image_features image) as [features|e]; [|done].
  rewrite bind_log. unfold clip_text_features at 1 2. cbn [fst snd app].
  f_equal.
  destruct (get_text_features art_styles) as [rows|e]; [|done].
  apply silent_bind; [apply silent_cosine_similarity_rows|]. intros sims.
  apply silent_bind; [apply silent_argmax|]. intros k.
  apply silent_bind; [apply silent_index|]. intros style.
  apply silent_bind; [apply silent_index|]. done.
Qed.

Lemma art_style_step_log (results : list record) (image_url : string) :
  (art_style_step' results image_url).2 = art_calls' image_url.
Proof.
  unfold art_style_step, art_calls.
  destruct (Py.nonblank image_url); [|done]. cbn [negb].
  rewrite try_except_log, bind_log, classify_style_log.
  destruct (classify_style' image_url ≫= λ r, mret (results ++ [r])).1;
    rewrite !app_nil_r;
    destruct (classify_style' image_url).1; by rewrite app_nil_r.
Qed.

(** What one iteration appends and calls does not depend on the records
    collected so far. *)
Lemma art_style_step_val (image_url : string) (results : list record) :
  art_style_step' results image_url
  = (Ok (results ++ match (art_style_step' [] image_url).1 with
                    | Ok rs => rs
                    | Raise _ => []
                    end),
     (art_style_step' [] image_url).2).
Proof.
  unfold art_style_step.
  destruct (Py.nonblank image_url); cbn [negb].
  - destruct (classify_style' image_url) as [[r|e] log]; done.
  - simpl. by rewrite app_nil_r.
Qed.

Lemma classify_art_style_val (images : list string) :
  classify_art_style' images
  = (Ok [("classifications",
          concat (map (λ url, match (art_style_step' [] url).1 with
                              | Ok rs => rs
                              | Raise _ => []
                              end) images))],
     concat (map (λ url, (art_style_step' [] url).2) images)).
Proof.
  unfold classify_art_style.
  rewrite (for_each_appends_val art_style_step' _ _ images
             (λ url s _, art_style_step_val url s) []).
  simpl. by rewrite app_nil_r.
Qed.

(** X5: [classify_art_style] never raises, whatever the collaborators do,
    and its response has exactly one record per non-blank URL, in input
    order, each carrying its URL in the [image] field. *)
Theorem art_style_one_record_per_url (images : list string) :
  ∃ results,
    (classify_art_style' images).1 = Ok [("classifications", results)]
    ∧ map (get "image") results
      = map (λ url, Some (VStr url)) (List.filter Py.nonblank images).
Proof.
  destruct (art_style_records get_text_features load_image get_image_features
              normalize cosine_similarity images)
    as (results & Hresp & Hrecs).
  exists results. split; [done|].
  eapply Forall2_map_eq; [exact Hrecs|].
  intros url r [Hok|(e & _ & ->)]; [|done].
  by destruct Hok as (? & ? & ? & ? & ? & ? & _ & _ & _ & _ & _ & _ & ->).
Qed.

(** X6: the response and the calls of [classify_art_style] for the images
    [l1 ++ l2] are those for [l1] followed by those for [l2]: a URL is
    classified on its own, whatever surrounds it. *)
Theorem art_style_append (l1 l2 : list string) :
  let handler :=
    classify_art_style get_text_features load_image get_image_features
      normalize cosine_similarity in
  ∃ rs1 rs2 log1 log2,
    handler l1 = (Ok [("classifications", rs1)], log1)
    ∧ handler l2 = (Ok [("classifications", rs2)], log2)
    ∧ handler (l1 ++ l2)
      = (Ok [("classifications", rs1 ++ rs2)], log1 ++ log2).
Proof.
  cbv zeta. eexists _, _, _, _. rewrite !classify_art_style_val.
  split_and!; [done..|]. by rewrite !map_app, !concat_app.
Qed.

(** X7: the calls of [classify_art_style] are, for each non-blank URL in
    input order, one fetch, then one call to the image tower when the fetch
    succeeds, then one embedding of the 14 style labels when the image is
    embedded: the labels are embedded again for every image. *)
Theorem art_style_call_log (images : list string) :
  (classify_art_style get_text_features load_image get_image_features
     normalize cosine_similarity images).2
  = concat (map (art_calls load_image get_image_features) images).
Proof.
  rewrite classify_art_style_val. cbn [snd]. f_equal.
  apply map_ext. intros url. apply art_style_step_log.
Qed.

(** X8: when the text tower raises on the style labels,
    [classify_art_style] still returns: every non-blank URL gets an error
    record, and for a URL whose image is fetched and embedded the message is
    that of the exception of the text tower. *)
Theorem art_style_label_failure (images : list string) (e : exn) :
  get_text_features art_styles = Raise e →
  ∃ results,
    (classify_art_style' images).1 = Ok [("classifications", results)]
    ∧ Forall2
        (λ url r,
           ∃ e', r = style_error url e'
                 ∧ ∀ image features,
                     load_image url = Ok image →
                     get_image_features image = Ok features →
                     e' = e)
        (List.filter Py.nonblank images) results.
Proof.
  intros Hdown.
  destruct (art_style_records get_text_features load_image get_image_features
              normalize cosine_similarity images)
    as (results & Hresp & Hrecs).
  exists results. split; [done|].
  eapply Forall2_impl; [exact Hrecs|]. intros url r Hr. simpl in Hr.
  destruct Hr as [Hok|(e' & He' & ->)].
  - destruct Hok as (? & ? & rows & ? & ? & ? & _ & _ & Hrows & _).
    congruence.
  - exists e'. split; [done|]. intros image features Himage Hfeatures.
    unfold classify_style, fetch_image, clip_image_features,
      clip_text_features in He'.
    rewrite (bind_Ok _ _ image) in He' by done.
    rewrite (bind_Ok _ _ features) in He' by done.
    rewrite (bind_Raise _ _ e) in He' by done.
    congruence.
Qed.

End ArtCalls.

Section MoodCalls.

Context {Emb Img : Type}.
Variable get_text_features : list string → result (list Emb).
Variable load_image : string → result Img.
Variable get_image_features : Img → result Emb.
Variable normalize : Emb → Emb.
Variable cosine_similarity : Emb → Emb → Q.

Local Abbreviation mood_theme_text' :=
  (mood_theme_text get_text_features normalize cosine_similarity).
Local Abbreviation mood_theme_image_try' :=
  (mood_theme_image_try get_text_features load_image get_image_features
     normalize cosine_similarity).
Local Abbreviation mood_theme_image' :=
  (mood_theme_image get_text_features load_image get_image_features
     normalize cosine_similarity).
Local Abbreviation classify_mood_theme' :=
  (classify_mood_theme get_text_features load_image get_image_features
     normalize cosine_similarity).

(** What one iteration of the image loop appends and calls does not depend
    on the records collected so far. *)
Lemma mood_theme_image_val (url : string) (results : list record) :
  mood_theme_image' results url
  = (Ok (results ++ match (mood_theme_image' [] url).1 with
                    | Ok rs => rs
                    | Raise _ => []
                    end),
     (mood_theme_image' [] url).2).
Proof.
  unfold mood_theme_image.
  destruct (Py.nonblank url).
  - destruct (mood_theme_image_try' url) as [[r|e] log]; done.
  - simpl. by rewrite app_nil_r.
Qed.

Lemma mood_theme_images_val (image_urls : list string) (results : list record) :
  for_each mood_theme_image' image_urls results
  = (Ok (results
         ++ concat (map (λ url, match (mood_theme_image' [] url).1 with
                                | Ok rs => rs
                                | Raise _ => []
                                end) image_urls)),
     concat (map (λ url, (mood_theme_image' [] url).2) image_urls)).
Proof.
  apply (for_each_appends_val mood_theme_image' _ _ image_urls
           (λ url s _, mood_theme_image_val url s)).
Qed.

Lemma classify_mood_theme_no_text (image_urls : list string) :
  classify_mood_theme' [] image_urls
  = for_each mood_theme_image' image_urls [].
Proof.
  unfold classify_mood_theme.
  apply (bind_ret_l ([] : list record) (for_each mood_theme_image' image_urls)).
Qed.

(** X9: when the texts alone are classified without failure, the response
    for the texts and the images together is the response for the texts
    alone followed by the response for the images alone, and the calls are
    those of the first followed by those of the second: the two halves of
    [classify_mood_theme] do not influence each other. *)
Theorem mood_theme_splits (texts image_urls : list string)
    (text_records : list record) (text_log : list event) :
  classify_mood_theme' texts [] = (Ok text_records, text_log) →
  ∃ image_records image_log,
    classify_mood_theme' [] image_urls = (Ok image_records, image_log)
    ∧ classify_mood_theme' texts image_urls
      = (Ok (text_records ++ image_records), text_log ++ image_log).
Proof.
  intros Htexts. eexists _, _. split.
  { rewrite classify_mood_theme_no_text. apply mood_theme_images_val. }
  unfold classify_mood_theme in *.
  destruct (for_each mood_theme_text' texts []) as [[rt|e] lt] eqn:Hloop;
    [|done].
  rewrite (bind_val _ _ rt lt eq_refl) in Htexts. simpl in Htexts.
  injection Htexts as <- <-.
  rewrite (bind_val _ _ rt lt eq_refl), mood_theme_images_val. simpl.
  by rewrite app_nil_r.
Qed.

(** X10: when the classification of the texts raises,
    [classify_mood_theme] raises the same exception with the same calls
    whatever the images are: no image is fetched once a text has failed. *)
Theorem mood_theme_text_failure_stops (texts image_urls : list string)
    (e : exn) (text_log : list event) :
  classify_mood_theme' texts [] = (Raise e, text_log) →
  classify_mood_theme' texts image_urls = (Raise e, text_log).
Proof.
  unfold classify_mood_theme. intros Htexts.
  destruct (for_each mood_theme_text' texts []) as [[rt|e'] lt] eqn:Hloop.
  - rewrite (bind_val _ _ rt lt eq_refl) in Htexts. done.
  - rewrite (bind_val_Raise _ _ e' lt eq_refl) in Htexts.
    injection Htexts as -> ->. done.
Qed.

(** X11: without texts, the response and the calls of
    [classify_mood_theme] for the images [l1 ++ l2] are those for [l1]
    followed by those for [l2], and the handler never raises: an image is
    classified on its own, whatever surrounds it. *)
Theorem mood_theme_images_append (l1 l2 : list string) :
  let handler :=
    classify_mood_theme get_text_features load_image get_image_features
      normalize cosine_similarity in
  ∃ rs1 rs2 log1 log2,
    handler [] l1 = (Ok rs1, log1)
    ∧ handler [] l2 = (Ok rs2, log2)
    ∧ handler [] (l1 ++ l2) = (Ok (rs1 ++ rs2), log1 ++ log2).
Proof.
  cbv zeta.
  rewrite !classify_mood_theme_no_text, !mood_theme_images_val.
  eexists _, _, _, _. split_and!; [done..|].
  by rewrite !map_app, !concat_app.
Qed.

End MoodCalls.

Lemma existsb_true_nonempty {A} (f : A → bool) (l : list A) :
  existsb f l = true →
  Py.bool_of_list l = true ∧ Py.bool_of_list (List.filter f l) = true.
Proof.
  induction l as [|x l IH]; simpl; [done|].
  destruct (f x); simpl; [done|]. intros H. split; [done|]. by apply IH.
Qed.

Section BlankInputs.

Context {Emb Img : Type}.
Variable get_text_features : list string → result (list Emb).
Variable load_image : string → result Img.
Variable get_image_features : Img → result Emb.
Variable normalize : Emb → Emb.
Variable cosine_similarity : Emb → Emb → Q.

Local Abbreviation group_by_similarity' :=
  (group_by_similarity get_text_features load_image get_image_features
     normalize cosine_similarity).
Local Abbreviation classify_art_style' :=
  (classify_art_style get_text_features load_image get_image_features
     normalize cosine_similarity).
Local Abbreviation classify_mood_theme' :=
  (classify_mood_theme get_text_features load_image get_image_features
     normalize cosine_similarity).

Lemma group_skips_blank (texts image_urls : list string) :
  group_by_similarity' texts image_urls
  = group_by_similarity' (List.filter Py.nonblank texts)
      (List.filter Py.nonblank image_urls).
Proof.
  unfold group_by_similarity.
  rewrite existsb_filter_same, filter_filter_same.
  destruct (existsb Py.nonblank texts) eqn:Hany.
  - destruct (existsb_true_nonempty _ _ Hany) as [-> ->]. cbn [negb orb].
    apply bind_ext. intros rows. f_equal.
    unfold embed_images. apply for_each_filter.
    intros url [es us] _ Hblank. unfold embed_image. by rewrite Hblank.
  - by rewrite !orb_true_r.
Qed.

Lemma art_style_skips_blank (images : list string) :
  classify_art_style' images
  = classify_art_style' (List.filter Py.nonblank images).
Proof.
  unfold classify_art_style. apply try_except_ext; [|done]. f_equal.
  apply for_each_filter.
  intros url results _ Hblank. unfold art_style_step. by rewrite Hblank.
Qed.

Lemma mood_theme_skips_blank (texts image_urls : list string) :
  classify_mood_theme' texts image_urls
  = classify_mood_theme' (List.filter Py.nonblank texts)
      (List.filter Py.nonblank image_urls).
Proof.
  unfold classify_mood_theme.
  rewrite (for_each_filter _ Py.nonblank texts)
    by (intros text results _ Hblank; unfold mood_theme_text;
        by rewrite Hblank).
  apply bind_ext. intros results. apply for_each_filter.
  intros url results' _ Hblank. unfold mood_theme_image. by rewrite Hblank.
Qed.

(** X3: blank texts and blank URLs are ignored by the three endpoints: a
    request and the same request with every blank entry removed get the same
    response, or the same exception, with the same calls. *)
Theorem blank_entries_ignored (texts image_urls : list string) :
  group_by_similarity' texts image_urls
  = group_by_similarity' (List.filter Py.nonblank texts)
      (List.filter Py.nonblank image_urls)
  ∧ classify_art_style' image_urls
    = classify_art_style' (List.filter Py.nonblank image_urls)
  ∧ classify_mood_theme' texts image_urls
    = classify_mood_theme' (List.filter Py.nonblank texts)
        (List.filter Py.nonblank image_urls).
Proof.
  split_and!.
  - apply group_skips_blank.
  - apply art_style_skips_blank.
  - apply mood_theme_skips_blank.
Qed.

(** X12: when no text and no URL of the request has non-whitespace
    content, [classify_art_style] answers with an empty list of
    classifications and [classify_mood_theme] with the empty list, and
    neither calls a collaborator. *)
Theorem blank_request_empty_response (texts image_urls : list string) :
  (∀ t, t ∈ texts → ¬ Py.has_content t) →
  (∀ u, u ∈ image_urls → ¬ Py.has_content u) →
  classify_art_style' image_urls = (Ok [("classifications", [])], [])
  ∧ classify_mood_theme' texts image_urls = (Ok [], []).
Proof.
  intros Htexts Himages. split.
  - rewrite art_style_skips_blank, (filter_all_blank _ Himages). done.
  - rewrite mood_theme_skips_blank.
    rewrite (filter_all_blank _ Htexts), (filter_all_blank _ Himages). done.
Qed.

End BlankInputs.

Section LabelFailure.

Context {Emb Img : Type}.
Variable get_text_features : list string → result (list Emb).
Variable load_image : string → result Img.
Variable get_image_features : Img → result Emb.
Variable normalize : Emb → Emb.
Variable cosine_similarity : Emb → Emb → Q.

Local Abbreviation mood_theme_of' :=
  (mood_theme_of get_text_features normalize cosine_similarity).
Local Abbreviation mood_theme_text' :=
  (mood_theme_text get_text_features normalize cosine_similarity).
Local Abbreviation classify_mood_theme' :=
  (classify_mood_theme get_text_features load_image get_image_features
     normalize cosine_similarity).

Lemma mood_theme_of_label_failure (type content : string)
    (item_norm : list Emb) (e : exn) :
  get_text_features mood_categories = Raise e →
  (mood_theme_of' type content item_norm).1 = Raise e.
Proof.
  intros Hdown. unfold mood_theme_of, clip_text_features.
  by apply bind_Raise.
Qed.

(** X13: when the text tower raises on the mood labels,
    [classify_mood_theme] treats texts and images differently: with a
    non-blank text in the request the handler raises, while with no
    non-blank text it returns one error record per non-blank URL. *)
Theorem mood_theme_label_failure (texts image_urls : list string) (e : exn) :
  get_text_features mood_categories = Raise e →
  (existsb Py.nonblank texts = true →
   ∃ e', (classify_mood_theme' texts image_urls).1 = Raise e')
  ∧ (existsb Py.nonblank texts = false →
     ∃ results,
       (classify_mood_theme' texts image_urls).1 = Ok results
       ∧ Forall2 (λ url r, ∃ e', r = mood_theme_error url e')
           (List.filter Py.nonblank image_urls) results).
Proof.
  intros Hdown. split.
  - intros (text & Hin & Hnb)%existsb_exists. apply list_elem_of_In in Hin.
    unfold classify_mood_theme.
    destruct (for_each_raises mood_theme_text' texts text Hin)
      with (s := @nil record) as [e' He'].
    { intros s. unfold mood_theme_text. rewrite Hnb.
      destruct (clip_text_features get_text_features [text]).1
        as [rows|e0] eqn:Hrows.
      - exists e. rewrite (bind_Ok _ _ rows Hrows). apply bind_Raise.
        by apply mood_theme_of_label_failure.
      - exists e0. by apply bind_Raise. }
    exists e'. by apply bind_Raise.
  - intros Hblank.
    assert (Htexts : List.filter Py.nonblank texts = []).
    { apply filter_none. intros t Ht. apply not_true_is_false. intros Hnb.
      assert (existsb Py.nonblank texts = true)
        by (apply existsb_exists; eauto).
      congruence. }
    destruct (classify_mood_theme' texts image_urls).1 as [results|e0]
      eqn:Hrun.
    + exists results. split; [done|].
      apply mood_theme_structure in Hrun as (trecs & irecs & -> & Ht & Hi).
      rewrite Htexts in Ht. apply Forall2_nil_inv_l in Ht as ->. simpl.
      eapply Forall2_impl; [exact Hi|]. intros url r Hr.
      destruct Hr as [(image & features & _ & _ & Hok)|(e' & _ & ->)].
      * destruct Hok as (? & ? & ? & ? & ? & ? & ? & ? & ? & ? & Hm & _).
        congruence.
      * by exists e'.
    + rewrite (mood_theme_skips_blank get_text_features load_image
                 get_image_features normalize cosine_similarity), Htexts,
        (classify_mood_theme_no_text get_text_features load_image
           get_image_features normalize cosine_similarity),
        (mood_theme_images_val get_text_features load_image
           get_image_features normalize cosine_similarity) in Hrun.
      done.
Qed.

End LabelFailure.

(** ** Determinism *)

Lemma outcome_rel_refl {A} (R : A → A → Prop) (r : result A) :
  (∀ a, R a a) → outcome_rel R r r.
Proof. intros H. destruct r; simpl; done. Qed.

Lemma bind_outcome_rel {A A' B B'} (R : A → A' → Prop) (R2 : B → B' → Prop)
    (m : io A) (m' : io A') (f : A → io B) (f' : A' → io B') :
  outcome_rel R m.1 m'.1 →
  (∀ a a', m.1 = Ok a → m'.1 = Ok a' → R a a' →
           outcome_rel R2 (f a).1 (f' a').1) →
  outcome_rel R2 (m ≫= f).1 (m' ≫= f').1.
Proof.
  intros Hm Hf.
  destruct m.1 as [a|e] eqn:E; destruct m'.1 as [a'|e'] eqn:E';
    simpl in Hm; try done.
  - rewrite (bind_Ok _ _ a E), (bind_Ok _ _ a' E'). by apply Hf.
  - by rewrite (bind_Raise _ _ e E), (bind_Raise _ _ e' E').
Qed.

Lemma try_except_outcome_rel {A A'} (R : A → A' → Prop)
    (body : io A) (body' : io A') (h : exn → io A) (h' : exn → io A') :
  outcome_rel R body.1 body'.1 →
  (∀ e e', outcome_rel R (h e).1 (h' e').1) →
  outcome_rel R (try_except body h).1 (try_except body' h').1.
Proof.
  intros Hbody Hh.
  destruct body.1 as [a|e] eqn:E; destruct body'.1 as [a'|e'] eqn:E';
    simpl in Hbody; try done.
  - by rewrite (try_except_Ok _ _ a E), (try_except_Ok _ _ a' E').
  - rewrite (try_except_Raise _ _ e E), (try_except_Raise _ _ e' E').
    apply Hh.
Qed.

Lemma for_each_outcome_rel {A S S'} (RS : S → S' → Prop)
    (body : S → A → io S) (body' : S' → A → io S') (l : list A) :
  (∀ x s s', x ∈ l → RS s s' → outcome_rel RS (body s x).1 (body' s' x).1) →
  ∀ s s', RS s s' →
          outcome_rel RS (for_each body l s).1 (for_each body' l s').1.
Proof.
  induction l as [|x l IH]; intros Hbody s s' Hs; [done|].
  rewrite !for_each_unfold.
  apply (bind_outcome_rel RS RS).
  - apply Hbody; [by left|done].
  - intros a a' _ _ Ha. apply IH; [|done].
    intros y t t' Hy. apply Hbody. by right.
Qed.

Lemma omap_ext_elem {A B} (f g : A → option B) (l : list A) :
  (∀ x, x ∈ l → f x = g x) → omap f l = omap g l.
Proof.
  induction l as [|x l IH]; intros H; [done|].
  csimpl. rewrite (H x) by by left.
  rewrite IH by (intros y Hy; apply H; by right). done.
Qed.

Lemma same_record_refl (r : record) : same_record r r.
Proof. done. Qed.

Lemma same_records_snoc (s s' : list record) (r r' : record) :
  Forall2 same_record s s' → same_record r r' →
  Forall2 same_record (s ++ [r]) (s' ++ [r']).
Proof. intros Hs Hr. apply Forall2_app; [done|]. by constructor. Qed.

Lemma style_error_same (image_url : string) (e e' : exn) :
  same_record (style_error image_url e) (style_error image_url e').
Proof.
  split; [done|]. intros k Hk. unfold style_error. simpl.
  destruct (String.eqb k "image"); [done|].
  destruct (String.eqb k "style"); [done|].
  destruct (String.eqb k "confidence"); [done|].
  destruct (String.eqb_spec k "error"); done.
Qed.

Lemma mood_theme_error_same (url : string) (e e' : exn) :
  same_record (mood_theme_error url e) (mood_theme_error url e').
Proof.
  split; [done|]. intros k Hk. unfold mood_theme_error. simpl.
  destruct (String.eqb k "type"); [done|].
  destruct (String.eqb k "content"); [done|].
  destruct (String.eqb_spec k "error"); done.
Qed.

Section Determinism.

Context {Emb Img : Type}.

(** Two runs of the service: the collaborators of the first run and of the
    second run. *)
Variables get_text_features get_text_features' : list string → result (list Emb).
Variables load_image load_image' : string → result Img.
Variables get_image_features get_image_features' : Img → result Emb.
Variable normalize : Emb → Emb.
Variable cosine_similarity : Emb → Emb → Q.

Variables texts images : list string.

(** The text tower answers alike on what the request makes it embed: the
    same rows, or a failure in both runs. *)
Hypothesis same_batch :
  outcome_rel eq
    (get_text_features (List.filter Py.nonblank texts))
    (get_text_features' (List.filter Py.nonblank texts)).
Hypothesis same_text :
  ∀ text, text ∈ texts →
          outcome_rel eq (get_text_features [text]) (get_text_features' [text]).
Hypothesis same_labels :
  ∀ labels, labels ∈ [art_styles; mood_categories; theme_categories] →
            outcome_rel eq (get_text_features labels)
              (get_text_features' labels).

(** The remote images and the image tower are unchanged: the same image
    and the same embedding, or a failure in both runs, the two exceptions
    being free to differ. *)
Hypothesis same_image :
  ∀ url, url ∈ images → outcome_rel eq (load_image url) (load_image' url).
Hypothesis same_features :
  ∀ url image, url ∈ images → load_image url = Ok image →
               outcome_rel eq (get_image_features image)
                 (get_image_features' image).

Lemma image_pipeline_rel {B B'} (R : B → B' → Prop) (url : string)
    (k : Emb → io B) (k' : Emb → io B') :
  url ∈ images →
  (∀ features, outcome_rel R (k features).1 (k' features).1) →
  outcome_rel R
    (image ← fetch_image load_image url;
     features ← clip_image_features get_image_features image; k features).1
    (image ← fetch_image load_image' url;
     features ← clip_image_features get_image_features' image; k' features).1.
Proof.
  intros Hin Hk.
  apply (bind_outcome_rel eq R); [by apply same_image|].
  intros image ? Himage _ <-.
  apply (bind_outcome_rel eq R); [by apply (same_features url)|].
  intros features ? _ _ <-. apply Hk.
Qed.

Lemma image_embedding_same (url : string) :
  url ∈ images →
  image_embedding load_image get_image_features normalize url
  = image_embedding load_image' get_image_features' normalize url.
Proof.
  intros Hin. unfold image_embedding.
  pose proof (same_image url Hin) as Hi.
  destruct (load_image url) as [image|e] eqn:E;
    destruct (load_image' url) as [image'|e']; simpl in Hi; try done.
  subst image'.
  pose proof (same_features url image Hin E) as Hf.
  destruct (get_image_features image) as [f|e];
    destruct (get_image_features' image) as [f'|e']; simpl in Hf; try done.
  by subst.
Qed.

Lemma embedded_same (l : list string) :
  (∀ url, url ∈ l → url ∈ images) →
  embedded load_image get_image_features normalize l
  = embedded load_image' get_image_features' normalize l.
Proof.
  intros Hsub. unfold embedded. apply omap_ext_elem.
  intros url Hin. by rewrite (image_embedding_same url) by by apply Hsub.
Qed.

Lemma group_by_similarity_rel :
  outcome_rel eq
    (group_by_similarity get_text_features load_image get_image_features
       normalize cosine_similarity texts images).1
    (group_by_similarity get_text_features' load_image' get_image_features'
       normalize cosine_similarity texts images).1.
Proof.
  unfold group_by_similarity.
  destruct (negb (Py.bool_of_list texts) || negb (existsb Py.nonblank texts));
    [done|].
  apply (bind_outcome_rel eq eq); [apply same_batch|].
  intros rows ? _ _ <-.
  apply (bind_outcome_rel eq eq).
  - unfold embed_images.
    rewrite (embed_images_val load_image get_image_features normalize),
      (embed_images_val load_image' get_image_features' normalize).
    by rewrite embedded_same.
  - intros [ie vu] ? _ _ <-. by apply outcome_rel_refl.
Qed.

Lemma classify_style_rel (url : string) :
  url ∈ images →
  outcome_rel eq
    (classify_style get_text_features load_image get_image_features
       normalize cosine_similarity url).1
    (classify_style get_text_features' load_image' get_image_features'
       normalize cosine_similarity url).1.
Proof.
  intros Hin. unfold classify_style.
  apply (image_pipeline_rel eq url); [done|]. intros features.
  apply (bind_outcome_rel eq eq).
  - apply (same_labels art_styles). by left.
  - intros rows ? _ _ <-. by apply outcome_rel_refl.
Qed.

Lemma art_style_step_rel (url : string) (s s' : list record) :
  url ∈ images → Forall2 same_record s s' →
  outcome_rel (Forall2 same_record)
    (art_style_step get_text_features load_image get_image_features
       normalize cosine_similarity s url).1
    (art_style_step get_text_features' load_image' get_image_features'
       normalize cosine_similarity s' url).1.
Proof.
  intros Hin Hs. unfold art_style_step.
  destruct (negb (Py.nonblank url)); [done|].
  apply try_except_outcome_rel.
  - apply (bind_outcome_rel eq (Forall2 same_record));
      [by apply classify_style_rel|].
    intros r ? _ _ <-. simpl. by apply same_records_snoc.
  - intros e e'. simpl. apply same_records_snoc; [done|].
    apply style_error_same.
Qed.

Lemma mood_theme_of_rel (type content : string) (item_norm : list Emb) :
  outcome_rel eq
    (mood_theme_of get_text_features normalize cosine_similarity type content
       item_norm).1
    (mood_theme_of get_text_features' normalize cosine_similarity type
       content item_norm).1.
Proof.
  unfold mood_theme_of.
  apply (bind_outcome_rel eq eq).
  { apply (same_labels mood_categories). by right; left. }
  intros mood_rows ? _ _ <-.
  apply (bind_outcome_rel eq eq).
  { apply (same_labels theme_categories). by do 2 right; left. }
  intros theme_rows ? _ _ <-. by apply outcome_rel_refl.
Qed.

Lemma mood_theme_text_rel (text : string) (s s' : list record) :
  text ∈ texts → Forall2 same_record s s' →
  outcome_rel (Forall2 same_record)
    (mood_theme_text get_text_features normalize cosine_similarity s text).1
    (mood_theme_text get_text_features' normalize cosine_similarity s'
       text).1.
Proof.
  intros Hin Hs. unfold mood_theme_text.
  destruct (Py.nonblank text); [|done].
  apply (bind_outcome_rel eq (Forall2 same_record));
    [by apply same_text|].
  intros rows ? _ _ <-.
  apply (bind_outcome_rel eq (Forall2 same_record));
    [apply mood_theme_of_rel|].
  intros r ? _ _ <-. simpl. by apply same_records_snoc.
Qed.

Lemma mood_theme_image_rel (url : string) (s s' : list record) :
  url ∈ images → Forall2 same_record s s' →
  outcome_rel (Forall2 same_record)
    (mood_theme_image get_text_features load_image get_image_features
       normalize cosine_similarity s url).1
    (mood_theme_image get_text_features' load_image' get_image_features'
       normalize cosine_similarity s' url).1.
Proof.
  intros Hin Hs. unfold mood_theme_image.
  destruct (Py.nonblank url); [|done].
  apply try_except_outcome_rel.
  - apply (bind_outcome_rel eq (Forall2 same_record)).
    + unfold mood_theme_image_try.
      apply (image_pipeline_rel eq url); [done|]. intros features.
      apply mood_theme_of_rel.
    + intros r ? _ _ <-. simpl. by apply same_records_snoc.
  - intros e e'. simpl. apply same_records_snoc; [done|].
    apply mood_theme_error_same.
Qed.

(** C9: each endpoint is deterministic in its inputs and in what the
    collaborators answer.  Take two runs on the same texts and images in
    which, on the inputs of the request, the text tower, the image fetcher
    and the image tower return the same values where they return and fail
    in both runs where they fail, the exceptions being free to differ from
    one run to the other.  Then [group_by_similarity] returns the same
    entries with the same matches in both runs, or raises in both;
    [classify_art_style] returns two lists of records of the same length
    which agree, position by position, on the keys and on every value other
    than the text of the error message, hence on the labels and the order;
    and so does [classify_mood_theme], unless it raises in both runs. *)
Theorem endpoints_deterministic :
  outcome_rel eq
    (group_by_similarity get_text_features load_image get_image_features
       normalize cosine_similarity texts images).1
    (group_by_similarity get_text_features' load_image' get_image_features'
       normalize cosine_similarity texts images).1
  ∧ (∃ results results',
       (classify_art_style get_text_features load_image get_image_features
          normalize cosine_similarity images).1
       = Ok [("classifications", results)]
       ∧ (classify_art_style get_text_features' load_image'
            get_image_features' normalize cosine_similarity images).1
         = Ok [("classifications", results')]
       ∧ Forall2 same_record results results')
  ∧ outcome_rel (Forall2 same_record)
      (classify_mood_theme get_text_features load_image get_image_features
         normalize cosine_similarity texts images).1
      (classify_mood_theme get_text_features' load_image' get_image_features'
         normalize cosine_similarity texts images).1.
Proof.
  split_and!.
  - apply group_by_similarity_rel.
  - destruct (art_style_loop get_text_features load_image get_image_features
                normalize cosine_similarity images)
      as (results & Hrun & Hresp).
    destruct (art_style_loop get_text_features' load_image'
                get_image_features' normalize cosine_similarity images)
      as (results' & Hrun' & Hresp').
    exists results, results'. split_and!; [done..|].
    pose proof (for_each_outcome_rel (Forall2 same_record) _ _ images
                  (λ url s s' Hin Hs, art_style_step_rel url s s' Hin Hs)
                  [] [] (Forall2_nil_2 _ _ _)) as Hrel.
    by rewrite (Hrun []), (Hrun' []) in Hrel.
  - unfold classify_mood_theme.
    apply (bind_outcome_rel (Forall2 same_record) (Forall2 same_record)).
    + apply for_each_outcome_rel; [|constructor].
      intros text s s' Hin Hs. by apply mood_theme_text_rel.
    + intros s s' _ _ Hs. apply for_each_outcome_rel; [|done].
      intros url t t' Hin Ht. by apply mood_theme_image_rel.
Qed.

End Determinism.

(** ** The further facts on the toy instance *)

Lemma group_text_failure_stops_witness :
  Toy.group ["a red apple"; "boom"] Toy.image_urls
  = (Raise (Exception "tokenizer"),
     [TextFeatures (List.filter Py.nonblank ["a red apple"; "boom"])]).
Proof.
  apply (group_text_failure_stops Toy.get_text_features Toy.load_image
           Toy.get_image_features Toy.normalize Toy.cosine_similarity
           ["a red apple"; "boom"] Toy.image_urls (Exception "tokenizer"));
    reflexivity.
Defined.

Lemma group_call_log_witness :
  (Toy.group Toy.texts Toy.image_urls).2
  = TextFeatures (List.filter Py.nonblank Toy.texts)
    :: concat (map (image_calls Toy.load_image) Toy.image_urls).
Proof.
  apply (group_call_log Toy.get_text_features Toy.load_image
           Toy.get_image_features Toy.normalize Toy.cosine_similarity
           Toy.texts Toy.image_urls [11; 3]%Z); reflexivity.
Defined.

Lemma group_images_append_witness :
  ∃ g1 g2 g,
    (Toy.group Toy.texts ["http://a.io"; "ftp"]).1 = Ok g1
    ∧ (Toy.group Toy.texts ["http"; "http://b.io"]).1 = Ok g2
    ∧ (Toy.group Toy.texts (["http://a.io"; "ftp"] ++ ["http"; "http://b.io"])).1
      = Ok g
    ∧ ∀ i text,
        List.filter Py.nonblank Toy.texts !! i = Some text →
        ∃ m1 m2,
          g1 !! i = Some [("text", VStr text); ("matches", VStrs m1)]
          ∧ g2 !! i = Some [("text", VStr text); ("matches", VStrs m2)]
          ∧ g !! i = Some [("text", VStr text); ("matches", VStrs (m1 ++ m2))].
Proof.
  apply (group_images_append Toy.get_text_features Toy.load_image
           Toy.get_image_features Toy.normalize Toy.cosine_similarity
           Toy.texts ["http://a.io"; "ftp"] ["http"; "http://b.io"]
           [11; 3]%Z); reflexivity.
Defined.

Lemma art_style_label_failure_witness :
  ∃ results,
    (classify_art_style Toy.get_text_features_down Toy.load_image
       Toy.get_image_features Toy.normalize Toy.cosine_similarity
       Toy.image_urls).1 = Ok [("classifications", results)]
    ∧ Forall2
        (λ url r,
           ∃ e', r = style_error url e'
                 ∧ ∀ image features,
                     Toy.load_image url = Ok image →
                     Toy.get_image_features image = Ok features →
                     e' = Exception "model unavailable")
        (List.filter Py.nonblank Toy.image_urls) results.
Proof.
  apply (art_style_label_failure Toy.get_text_features_down Toy.load_image
           Toy.get_image_features Toy.normalize Toy.cosine_similarity
           Toy.image_urls (Exception "model unavailable")).
  reflexivity.
Defined.

Lemma mood_theme_splits_witness :
  ∃ image_records image_log,
    Toy.mood [] Toy.image_urls = (Ok image_records, image_log)
    ∧ Toy.mood ["cat"] Toy.image_urls
      = (Ok ([[("type", VStr "text"); ("content", VStr "cat");
               ("mood", VStr "sad"); ("theme", VStr "art");
               ("mood_confidence", VNum 1); ("theme_confidence", VNum 1)]]
             ++ image_records),
         [TextFeatures ["cat"]; TextFeatures mood_categories;
          TextFeatures theme_categories] ++ image_log).
Proof.
  apply (mood_theme_splits Toy.get_text_features Toy.load_image
           Toy.get_image_features Toy.normalize Toy.cosine_similarity
           ["cat"] Toy.image_urls).
  reflexivity.
Defined.

Lemma mood_theme_text_failure_stops_witness :
  Toy.mood ["cat"; "boom"; "a red apple"] Toy.image_urls
  = (Raise (Exception "tokenizer"),
     [TextFeatures ["cat"]; TextFeatures mood_categories;
      TextFeatures theme_categories; TextFeatures ["boom"]]).
Proof.
  apply (mood_theme_text_failure_stops Toy.get_text_features Toy.load_image
           Toy.get_image_features Toy.normalize Toy.cosine_similarity
           ["cat"; "boom"; "a red apple"] Toy.image_urls).
  reflexivity.
Defined.

Lemma blank_request_empty_response_witness :
  Toy.art [""; "  "] = (Ok [("classifications", [])], [])
  ∧ Toy.mood ["  "] [""; "  "] = (Ok [], []).
Proof.
  apply (blank_request_empty_response Toy.get_text_features Toy.load_image
           Toy.get_image_features Toy.normalize Toy.cosine_similarity
           ["  "] [""; "  "]).
  - intros t Ht Hc%nonblank_has_content.
    apply elem_of_cons in Ht as [->|Ht]; [discriminate Hc|].
    by apply elem_of_nil in Ht.
  - intros u Hu Hc%nonblank_has_content.
    apply elem_of_cons in Hu as [->|Hu]; [discriminate Hc|].
    apply elem_of_cons in Hu as [->|Hu]; [discriminate Hc|].
    by apply elem_of_nil in Hu.
Defined.

Lemma mood_theme_label_failure_witness :
  (∃ e',
     (classify_mood_theme Toy.get_text_features_down Toy.load_image
        Toy.get_image_features Toy.normalize Toy.cosine_similarity
        Toy.texts Toy.image_urls).1 = Raise e')
  ∧ ∃ results,
      (classify_mood_theme Toy.get_text_features_down Toy.load_image
         Toy.get_image_features Toy.normalize Toy.cosine_similarity
         ["  "] Toy.image_urls).1 = Ok results
      ∧ Forall2 (λ url r, ∃ e', r = mood_theme_error url e')
          (List.filter Py.nonblank Toy.image_urls) results.
Proof.
  split.
  - apply (mood_theme_label_failure Toy.get_text_features_down
             Toy.load_image Toy.get_image_features Toy.normalize
             Toy.cosine_similarity Toy.texts Toy.image_urls
             (Exception "model unavailable")); reflexivity.
  - apply (mood_theme_label_failure Toy.get_text_features_down
             Toy.load_image Toy.get_image_features Toy.normalize
             Toy.cosine_similarity ["  "] Toy.image_urls
             (Exception "model unavailable")); reflexivity.
Defined.

Lemma endpoints_deterministic_witness :
  (outcome_rel eq
     (Toy.group Toy.texts Toy.image_urls).1
     (group_by_similarity Toy.get_text_features_rerun Toy.load_image_rerun
        Toy.get_image_features_rerun Toy.normalize Toy.cosine_similarity
        Toy.texts Toy.image_urls).1
   ∧ (∃ results results',
        (Toy.art Toy.image_urls).1 = Ok [("classifications", results)]
        ∧ (classify_art_style Toy.get_text_features_rerun
             Toy.load_image_rerun Toy.get_image_features_rerun Toy.normalize
             Toy.cosine_similarity Toy.image_urls).1
          = Ok [("classifications", results')]
        ∧ Forall2 same_record results results')
   ∧ outcome_rel (Forall2 same_record)
       (Toy.mood Toy.texts Toy.image_urls).1
       (classify_mood_theme Toy.get_text_features_rerun Toy.load_image_rerun
          Toy.get_image_features_rerun Toy.normalize Toy.cosine_similarity
          Toy.texts Toy.image_urls).1)
  ∧ (Toy.art Toy.image_urls).1
    = Ok [("classifications",
           [[("image", VStr "http://a.io"); ("style", VStr "renaissance");
             ("confidence", VNum 1)];
            [("image", VStr "ftp"); ("style", VStr "unknown");
             ("confidence", VNum 0);
             ("error", VStr "Failed to process image: Invalid URL")];
            [("image", VStr "http://bad"); ("style", VStr "unknown");
             ("confidence", VNum 0);
             ("error",
              VStr "Failed to process image: cannot identify image file")];
            [("image", VStr "http"); ("style", VStr "modern");
             ("confidence", VNum (7 # 10))]])]
  ∧ (classify_art_style Toy.get_text_features_rerun Toy.load_image_rerun
       Toy.get_image_features_rerun Toy.normalize Toy.cosine_similarity
       Toy.image_urls).1
    = Ok [("classifications",
           [[("image", VStr "http://a.io"); ("style", VStr "renaissance");
             ("confidence", VNum 1)];
            [("image", VStr "ftp"); ("style", VStr "unknown");
             ("confidence", VNum 0);
             ("error",
              VStr "Failed to process image: Invalid URL (second run)")];
            [("image", VStr "http://bad"); ("style", VStr "unknown");
             ("confidence", VNum 0);
             ("error",
              VStr "Failed to process image: cannot identify image file <_io.BytesIO object at 0x7f9c>")];
            [("image", VStr "http"); ("style", VStr "modern");
             ("confidence", VNum (7 # 10))]])].
Proof.
  split; [|split; reflexivity].
  apply (endpoints_deterministic Toy.get_text_features
           Toy.get_text_features_rerun Toy.load_image Toy.load_image_rerun
           Toy.get_image_features Toy.get_image_features_rerun
           Toy.normalize Toy.cosine_similarity Toy.texts Toy.image_urls).
  - by vm_compute.
  - intros text Hin. unfold Toy.texts in Hin.
    repeat (apply elem_of_cons in Hin as [->|Hin]; [by vm_compute|]).
    by apply elem_of_nil in Hin.
  - intros labels Hin.
    repeat (apply elem_of_cons in Hin as [->|Hin]; [by vm_compute|]).
    by apply elem_of_nil in Hin.
  - intros url Hin. unfold Toy.image_urls in Hin.
    repeat (apply elem_of_cons in Hin as [->|Hin]; [by vm_compute|]).
    by apply elem_of_nil in Hin.
  - intros url image Hin Himage. unfold Toy.image_urls in Hin.
    repeat (apply elem_of_cons in Hin as [->|Hin];
            [vm_compute in Himage;
             first [discriminate Himage
                   |injection Himage as <-; by vm_compute]|]).
    by apply elem_of_nil in Hin.
Defined.

(** With a text on which the tokenizer fails, the handlers that embed the
    texts raise in both runs, with different exceptions. *)
Example rerun_text_failure :
  (Toy.mood ["cat"; "boom"] Toy.image_urls).1
  = Raise (Exception "tokenizer")
  ∧ (classify_mood_theme Toy.get_text_features_rerun Toy.load_image_rerun
       Toy.get_image_features_rerun Toy.normalize Toy.cosine_similarity
       ["cat"; "boom"] Toy.image_urls).1
    = Raise (Exception "tokenizer (second run)").
Proof. split; reflexivity. Qed.
